(** * DiseasePrediction.jsx: image acquisition and prediction request lifecycle

    A shallow embedding of the two React components of
    [src/DiseasePrediction.jsx] ([CameraView] and [DiseasePrediction]) and of
    the small part of the browser they talk to: promises that settle later,
    media tracks, the file input, [alert] and [console.error].

    Handlers are programs of a resumption monad [js]: they run synchronously
    on the store until they return, throw, or reach an [await].  A handler
    closes over the state values of the render that created it, so a handler
    takes those values as arguments; the state setters write to the store. *)

From stdpp Require Import base strings list gmap pretty.

Local Open Scope string_scope.
Local Open Scope list_scope.

(** ** JavaScript values *)

(** What [response.json()] can produce.  [JNull] is JavaScript's [null], the
    value [useState(null)] starts from and the handlers reset to. *)
#[local] Unset Elimination Schemes.
Inductive Json : Type :=
| JNull
| JBool (b : bool)
| JNum (n : Z)
| JStr (s : string)
| JArr (items : list Json)
| JObj (fields : list (string * Json)).
#[local] Set Elimination Schemes.

(** A thrown value: an [Error] object, or the reason a promise rejects with. *)
Record JsError : Type := mkError { err_name : string; err_message : string }.

(** How a promise settles. *)
Inductive outcome (X : Type) : Type :=
| Resolved (x : X)
| Rejected (e : JsError).
Arguments Resolved {X} x.
Arguments Rejected {X} e.

(** [!v] for a state slot that holds [null] or a string. *)
Definition truthy (v : option string) : bool :=
  match v with
  | None => false
  | Some s => negb (String.eqb s "")
  end.

(** ** Browser objects *)

Record File : Type := mkFile { file_name : string; file_type : string; file_data : string }.

Record Blob : Type := mkBlob { blob_type : string; blob_data : string }.

Record Response : Type := mkResponse { status : N; statusText : string }.

(** [response.ok]: the status is in the range 200-299. *)
Definition ok (r : Response) : bool :=
  (200 <=? status r)%N && (status r <=? 299)%N.

(** One entry of a [FormData]: field name, content, file name. *)
Record FormEntry : Type :=
  mkEntry { entry_name : string; entry_value : Blob; entry_filename : string }.

Definition FormData : Type := list FormEntry.

(** [formData.append(name, blob, filename)] *)
Definition FormData_append (fd : FormData) (name : string) (b : Blob) (filename : string)
  : FormData :=
  fd ++ [mkEntry name b filename].

(** The second argument of [fetch]. *)
Record RequestInit : Type := mkInit { method : string; body : FormData }.

Inductive readyState : Type := live | ended.

(** A [MediaStream] holds references to its tracks; the track objects
    themselves live in the store, so that stopping a track through one
    reference is seen through every other. *)
Record MediaStream : Type := mkStream { getTracks : list nat }.

Record MediaStreamConstraints : Type := mkConstraints { facingMode : string }.

(** The [<input type="file">] element behind [fileInputRef]. *)
Record HTMLInputElement : Type := mkInput { value : string; files : list File }.

#[global] Instance readyState_eq_dec : EqDecision readyState.
Proof. solve_decision. Defined.
#[global] Instance MediaStream_eq_dec : EqDecision MediaStream.
Proof. solve_decision. Defined.

(** ** Operations that settle later *)

(** The promise-returning (or callback-taking) platform calls of the file. *)
Inductive call : Type :=
| fetch (url : string) (init : option RequestInit)
| Response_blob (r : Response)
| Response_json (r : Response)
| getUserMedia (c : MediaStreamConstraints)
| readAsDataURL (f : File).

Definition reply (c : call) : Type :=
  match c with
  | fetch _ _ => Response
  | Response_blob _ => Blob
  | Response_json _ => Json
  | getUserMedia _ => MediaStream
  | readAsDataURL _ => string
  end.

(** ** The store *)

(** The five [useState] slots of [DiseasePrediction]. *)
Record AppState : Type := mkApp {
  predictionResult : Json;
  isLoading : bool;
  imageSrc : option string;
  isCameraOpen : bool;
  error : option string
}.

(** A mounted [CameraView].  [stream] is its [useState] slot, [srcObject]
    the property of the video element behind [videoRef].  [cleanup_stream]
    is the environment of the cleanup closure React holds for the effect:
    the value the variable [stream] had in the render whose effect ran. *)
Record CameraInstance : Type := mkCamera {
  cam_id : nat;
  stream : option MediaStream;
  srcObject : option MediaStream;
  cleanup_stream : option MediaStream
}.

Record store : Type := mkStore {
  ui : AppState;
  fileInputRef : option HTMLInputElement;
  camera : option CameraInstance;
  next_id : nat;
  tracks : gmap nat readyState;
  alerts : list string;
  console : list (string * JsError);
  onCapture_calls : list string
}.

Definition with_ui (f : AppState → AppState) (s : store) : store :=
  mkStore (f (ui s)) (fileInputRef s) (camera s) (next_id s) (tracks s)
          (alerts s) (console s) (onCapture_calls s).

Definition with_fileInput (f : option HTMLInputElement → option HTMLInputElement)
    (s : store) : store :=
  mkStore (ui s) (f (fileInputRef s)) (camera s) (next_id s) (tracks s)
          (alerts s) (console s) (onCapture_calls s).

Definition with_camera (f : option CameraInstance → option CameraInstance)
    (s : store) : store :=
  mkStore (ui s) (fileInputRef s) (f (camera s)) (next_id s) (tracks s)
          (alerts s) (console s) (onCapture_calls s).

Definition with_next_id (n : nat) (s : store) : store :=
  mkStore (ui s) (fileInputRef s) (camera s) n (tracks s)
          (alerts s) (console s) (onCapture_calls s).

Definition with_tracks (f : gmap nat readyState → gmap nat readyState)
    (s : store) : store :=
  mkStore (ui s) (fileInputRef s) (camera s) (next_id s) (f (tracks s))
          (alerts s) (console s) (onCapture_calls s).

Definition push_alert (msg : string) (s : store) : store :=
  mkStore (ui s) (fileInputRef s) (camera s) (next_id s) (tracks s)
          (alerts s ++ [msg]) (console s) (onCapture_calls s).

Definition push_console (label : string) (e : JsError) (s : store) : store :=
  mkStore (ui s) (fileInputRef s) (camera s) (next_id s) (tracks s)
          (alerts s) (console s ++ [(label, e)]) (onCapture_calls s).

Definition push_onCapture (payload : string) (s : store) : store :=
  mkStore (ui s) (fileInputRef s) (camera s) (next_id s) (tracks s)
          (alerts s) (console s) (onCapture_calls s ++ [payload]).

(** ** The [js] monad *)

Inductive js (A : Type) : Type :=
| Ret (a : A)
| Throw (e : JsError)
| Sync (f : store → store) (k : js A)
| Get (k : store → js A)
| Await (c : call) (k : outcome (reply c) → js A).
Arguments Ret {A} a.
Arguments Throw {A} e.
Arguments Sync {A} f k.
Arguments Get {A} k.
Arguments Await {A} c k.

Fixpoint js_bind {A B : Type} (f : A → js B) (p : js A) : js B :=
  match p with
  | Ret a => f a
  | Throw e => Throw e
  | Sync g k => Sync g (js_bind f k)
  | Get k => Get (λ s, js_bind f (k s))
  | Await c k => Await c (λ o, js_bind f (k o))
  end.

#[global] Instance js_ret : MRet js := @Ret.
#[global] Instance js_mbind : MBind js := @js_bind.

(** [try { p } catch (err) { h err }] *)
Fixpoint try_catch {A : Type} (p : js A) (h : JsError → js A) : js A :=
  match p with
  | Ret a => Ret a
  | Throw e => h e
  | Sync g k => Sync g (try_catch k h)
  | Get k => Get (λ s, try_catch (k s) h)
  | Await c k => Await c (λ o, try_catch (k o) h)
  end.

(** [try { p } finally { fin }]: [fin] runs on both exits and the exit of
    [p] is kept, unless [fin] itself throws. *)
Fixpoint try_finally {A : Type} (p : js A) (fin : js unit) : js A :=
  match p with
  | Ret a => fin ;; Ret a
  | Throw e => fin ;; Throw e
  | Sync g k => Sync g (try_finally k fin)
  | Get k => Get (λ s, try_finally (k s) fin)
  | Await c k => Await c (λ o, try_finally (k o) fin)
  end.

(** [await c]: the value the promise resolves with; a rejection is thrown. *)
Definition await (c : call) : js (reply c) :=
  Await c (λ o, match o with Resolved x => Ret x | Rejected e => Throw e end).

Definition perform (f : store → store) : js unit := Sync f (Ret ()).

Definition throw {A : Type} (e : JsError) : js A := Throw e.

(** ** Running a program *)

(** Where a synchronous run stops. *)
Inductive stop (A : Type) : Type :=
| Done (a : A)
| Failed (e : JsError)
| Blocked (c : call) (k : outcome (reply c) → js A).
Arguments Done {A} a.
Arguments Failed {A} e.
Arguments Blocked {A} c k.

(** Run to completion of the current synchronous segment. *)
Fixpoint run_sync {A : Type} (p : js A) (s : store) : store * stop A :=
  match p with
  | Ret a => (s, Done a)
  | Throw e => (s, Failed e)
  | Sync f k => run_sync k (f s)
  | Get k => run_sync (k s) s
  | Await c k => (s, Blocked c k)
  end.

(** What the platform does to the store when an operation settles:
    [getUserMedia] hands out a stream whose tracks are live. *)
Definition settle (c : call) : outcome (reply c) → store → store :=
  match c with
  | getUserMedia _ => λ o,
      match o with
      | Resolved ms => with_tracks (λ t, foldr (λ i, <[i:=live]>) t (getTracks ms))
      | Rejected _ => id
      end
  | _ => λ _, id
  end.

(** The environment of one run: how the [n]-th awaited operation settles. *)
Definition oracle : Type := nat → ∀ c : call, outcome (reply c).

(** The environment of a run in which each operation settles the same way
    whenever it is started. *)
Definition always (env : ∀ c : call, outcome (reply c)) : oracle := λ _, env.

(** How a whole run ends. *)
Inductive ending (A : Type) : Type :=
| Returned (a : A)
| Uncaught (e : JsError).
Arguments Returned {A} a.
Arguments Uncaught {A} e.

(** Run a program alone to its end, the [n]-th await answered by [env n];
    the operations started are collected in order. *)
Fixpoint exec {A : Type} (p : js A) (env : oracle) (n : nat) (s : store)
  : store * list call * ending A :=
  match p with
  | Ret a => (s, [], Returned a)
  | Throw e => (s, [], Uncaught e)
  | Sync f k => exec k env n (f s)
  | Get k => exec (k s) env n s
  | Await c k =>
      let '(s', started, r) := exec (k (env n c)) env (S n) (settle c (env n c) s) in
      (s', c :: started, r)
  end.

(** ** [DiseasePrediction]: the state setters *)

Definition setPredictionResult (v : Json) : js unit :=
  perform (with_ui (λ a, mkApp v (isLoading a) (imageSrc a) (isCameraOpen a) (error a))).

Definition setIsLoading (v : bool) : js unit :=
  perform (with_ui (λ a, mkApp (predictionResult a) v (imageSrc a) (isCameraOpen a) (error a))).

Definition setImageSrc (v : option string) : js unit :=
  perform (with_ui (λ a, mkApp (predictionResult a) (isLoading a) v (isCameraOpen a) (error a))).

Definition setIsCameraOpen (v : bool) : js unit :=
  perform (with_ui (λ a, mkApp (predictionResult a) (isLoading a) (imageSrc a) v (error a))).

Definition setError (v : option string) : js unit :=
  perform (with_ui (λ a, mkApp (predictionResult a) (isLoading a) (imageSrc a) (isCameraOpen a) v)).

Definition console_error (label : string) (err : JsError) : js unit :=
  perform (push_console label err).

Definition alert (msg : string) : js unit := perform (push_alert msg).

(** ** [DiseasePrediction]: the handlers *)

(** [handleImageChange(e)], given [e.target.files].  [reader.onload] is the
    continuation of the read; the reader has no [onerror], so nothing runs
    when the read fails. *)
Definition handleImageChange (e_target_files : list File) : js unit :=
  match e_target_files with
  | file :: _ =>
      Await (readAsDataURL file) (λ o,
        match o with
        | Resolved event_target_result =>
            setImageSrc (Some event_target_result) ;;
            setPredictionResult JNull ;;
            setError None
        | Rejected _ => Ret ()
        end)
  | [] => Ret ()
  end.

Definition handleCameraCapture (imageData : string) : js unit :=
  setImageSrc (Some imageData) ;;
  setPredictionResult JNull ;;
  setError None.

Definition endpoint : string := "http://localhost:8000/predict".

Definition predict_error_message : string :=
  "Error predicting disease. Please try again. Make sure the backend server is running.".

(** new Error(`Server returned ${status}: ${statusText}`) *)
Definition server_error (r : Response) : JsError :=
  mkError "Error" ("Server returned " +:+ pretty (status r) +:+ ": " +:+ statusText r).

(** [handlePredict], closed over the [imageSrc] of the render it was
    created in. *)
Definition handlePredict (imageSrc : option string) : js unit :=
  match imageSrc with
  | None => Ret ()
  | Some src =>
      if negb (truthy (Some src)) then Ret () else
      setIsLoading true ;;
      setPredictionResult JNull ;;
      setError None ;;
      try_finally
        (try_catch
           (response ← await (fetch src None);
            blob ← await (Response_blob response);
            let formData := FormData_append [] "file" blob "skin_image.jpg" in
            apiResponse ← await (fetch endpoint (Some (mkInit "POST" formData)));
            (if negb (ok apiResponse) then throw (server_error apiResponse) else Ret ()) ;;
            data ← await (Response_json apiResponse);
            setPredictionResult data)
           (λ err,
              console_error "Prediction error:" err ;;
              setError (Some predict_error_message)))
        (setIsLoading false)
  end.

(** [handleClear]: [fileInputRef.current.value = ""] empties the selection
    of the file input. *)
Definition handleClear : js unit :=
  setImageSrc None ;;
  setPredictionResult JNull ;;
  setError None ;;
  Get (λ s,
    match fileInputRef s with
    | Some _ => perform (with_fileInput (λ _, Some (mkInput "" [])))
    | None => Ret ()
    end).

(** ** [CameraView] *)

(** [stream.getTracks().forEach(track => track.stop())] *)
Definition stop_tracks (ms : MediaStream) : store → store :=
  with_tracks (λ t, foldr (λ i, alter (λ _, ended) i) t (getTracks ms)).

(** The function the effect returns, as created in a render where the
    variable [stream] has the given value: [if (stream) { ... stop ... }]. *)
Definition effect_cleanup (stream : option MediaStream) : store → store :=
  match stream with
  | Some ms => stop_tracks ms
  | None => id
  end.

Definition on_instance (id : nat) (f : CameraInstance → CameraInstance)
    (c : option CameraInstance) : option CameraInstance :=
  match c with
  | Some inst => if decide (cam_id inst = id) then Some (f inst) else Some inst
  | None => None
  end.

(** [setStream] of the instance [id]; setting the state of an instance that
    is no longer mounted does nothing.  The effect's dependency array is
    [[]], so the re-render does not run the effect again and React keeps the
    cleanup closure of the first render: [cleanup_stream] is not touched. *)
Definition setStream (id : nat) (v : option MediaStream) : js unit :=
  perform (with_camera (on_instance id
    (λ inst, mkCamera (cam_id inst) v (srcObject inst) (cleanup_stream inst)))).

Definition camera_error_message : string :=
  "Could not access the camera. Please ensure you have given permission.".

(** [openCamera] of the instance [id].  [videoRef.current] is the video
    element while the instance is mounted and [null] afterwards. *)
Definition openCamera (id : nat) (onClose : js unit) : js unit :=
  try_catch
    (mediaStream ← await (getUserMedia (mkConstraints "environment"));
     setStream id (Some mediaStream) ;;
     perform (with_camera (on_instance id
       (λ inst, mkCamera (cam_id inst) (stream inst) (Some mediaStream)
                         (cleanup_stream inst)))))
    (λ err,
       console_error "Error accessing camera: " err ;;
       alert camera_error_message ;;
       onClose).

(** [handleCapture].  The canvas is local to the call; [toDataURL] is what
    [canvas.toDataURL('image/jpeg')] yields for the frame drawn on it. *)
Definition handleCapture (toDataURL : string)
    (onCapture : string → js unit) (onClose : js unit) : js unit :=
  onCapture toDataURL ;;
  onClose.

(** The props [DiseasePrediction] passes to [CameraView]; [onCapture] also
    records each invocation with its payload. *)
Definition onCapture (imageData : string) : js unit :=
  perform (push_onCapture imageData) ;;
  handleCameraCapture imageData.

Definition onClose : js unit := setIsCameraOpen false.

(** Mounting: the first render sees [stream = null] ([useState(null)]); its
    effect starts [openCamera] and returns the cleanup closure over that
    render's [stream]. *)
Definition CameraView_mount (s : store) : store * js unit :=
  let id := next_id s in
  let stream0 : option MediaStream := None in
  (with_next_id (S id) (with_camera (λ _, Some (mkCamera id stream0 None stream0)) s),
   openCamera id onClose).

(** Unmounting runs the cleanup closure React holds. *)
Definition CameraView_unmount (inst : CameraInstance) (s : store) : store :=
  with_camera (λ _, None) (effect_cleanup (cleanup_stream inst) s).

(** ** The running page *)

(** An operation in flight together with what runs when it settles. *)
Record pending : Type := mkPending {
  p_call : call;
  p_k : outcome (reply p_call) → js unit
}.

Record sys : Type := mkSys {
  st : store;
  tasks : list pending;
  started : list call
}.

(** Run a handler or a continuation up to its next await. *)
Definition launch (p : js unit) (w : sys) : sys :=
  match run_sync p (st w) with
  | (s', Blocked c k) => mkSys s' (tasks w ++ [mkPending c k]) (started w ++ [c])
  | (s', _) => mkSys s' (tasks w) (started w)
  end.

(** React's commit: [{isCameraOpen && <CameraView ... />}]. *)
Definition commit (w : sys) : sys :=
  match camera (st w), isCameraOpen (ui (st w)) with
  | None, true =>
      let '(s', eff) := CameraView_mount (st w) in
      launch eff (mkSys s' (tasks w) (started w))
  | Some inst, false =>
      mkSys (CameraView_unmount inst (st w)) (tasks w) (started w)
  | _, _ => w
  end.

Inductive event : Type :=
| ChooseFiles (fs : list File)
| ClickUseCamera
| ClickPredict
| ClickClear
| ClickCapture (toDataURL : string)
| ClickCloseCamera
| Settles (i : nat) (env : ∀ c : call, outcome (reply c)).

(** The browser fills the file input before it fires [change]. *)
Definition choose (fs : list File) (el : option HTMLInputElement)
  : option HTMLInputElement :=
  match el, fs with
  | Some _, f :: _ => Some (mkInput ("C:\fakepath\" +:+ file_name f) fs)
  | Some _, [] => Some (mkInput "" [])
  | None, _ => None
  end.

(** What the page rendered from store [s] runs on a user event; a control
    that is not rendered, or is disabled, runs nothing. *)
Definition handler (ev : event) (s : store) : js unit :=
  match ev with
  | ChooseFiles fs =>
      perform (with_fileInput (choose fs)) ;;
      handleImageChange fs
  | ClickUseCamera => setIsCameraOpen true
  | ClickPredict =>
      if isLoading (ui s) || negb (truthy (imageSrc (ui s))) then Ret ()
      else handlePredict (imageSrc (ui s))
  | ClickClear =>
      if truthy (imageSrc (ui s)) then handleClear else Ret ()
  | ClickCapture toDataURL =>
      match camera s with
      | Some _ => handleCapture toDataURL onCapture onClose
      | None => Ret ()
      end
  | ClickCloseCamera =>
      match camera s with
      | Some _ => onClose
      | None => Ret ()
      end
  | Settles _ _ => Ret ()
  end.

Definition fire (ev : event) (w : sys) : sys :=
  match ev with
  | Settles i env =>
      match tasks w !! i with
      | Some t =>
          let o := env (p_call t) in
          commit (launch (p_k t o)
                    (mkSys (settle (p_call t) o (st w)) (delete i (tasks w)) (started w)))
      | None => w
      end
  | _ => commit (launch (handler ev (st w)) w)
  end.

Definition init_store : store :=
  mkStore (mkApp JNull false None false None) (Some (mkInput "" [])) None 0 ∅ [] [] [].

Definition init : sys := mkSys init_store [] [].

Definition run (evs : list event) : sys := foldl (λ w ev, fire ev w) init evs.

Inductive reachable : sys → Prop :=
| reach_init : reachable init
| reach_fire w ev : reachable w → reachable (fire ev w).

(** ** Reading the state *)

(** JavaScript truthiness of a parsed body: what [predictionResult && ...]
    and [if (!result)] test. *)
Definition truthy_json (v : Json) : bool :=
  match v with
  | JNull => false
  | JBool b => b
  | JNum n => negb (n =? 0)%Z
  | JStr s => negb (String.eqb s "")
  | JArr _ | JObj _ => true
  end.

(** The request lifecycle is not a variable of the component; it is read off
    the flags the way the JSX reads them: the busy indicator under
    [isLoading ? ...], the banner under [error && ...], the result panel
    under [predictionResult && ...]. *)
Inductive RequestState : Type := ReqIdle | ReqLoading | ReqSucceeded | ReqFailed.

Definition requestState (a : AppState) : RequestState :=
  if isLoading a then ReqLoading
  else if truthy (error a) then ReqFailed
  else if truthy_json (predictionResult a) then ReqSucceeded
  else ReqIdle.

(** Exactly one of result and error is present. *)
Definition exactly_one (a : AppState) : bool :=
  xorb (truthy_json (predictionResult a)) (truthy (error a)).

(** ** One run of [handlePredict] against its environment *)

(** The request [handlePredict] sends for a given blob. *)
Definition upload (blob : Blob) : call :=
  fetch endpoint (Some (mkInit "POST" [mkEntry "file" blob "skin_image.jpg"])).

Definition is_post (c : call) : bool :=
  match c with
  | fetch _ (Some i) => String.eqb (method i) "POST"
  | _ => false
  end.

(** The POST requests among the operations a run started. *)
Definition posts (l : list call) : list call := List.filter is_post l.

(** How the data URI turns into a blob in the run that starts at await [n]. *)
Definition conversion (src : string) (env : oracle) (n : nat) : outcome Blob :=
  match env n (fetch src None) with
  | Rejected e => Rejected e
  | Resolved response => env (S n) (Response_blob response)
  end.

(** What the environment makes of the run that starts at await [n]: the
    parsed body when the conversion succeeds, the service answers with a
    success status and the body parses; otherwise the value that reaches
    the [catch]. *)
Definition request_outcome (src : string) (env : oracle) (n : nat) : outcome Json :=
  match conversion src env n with
  | Rejected e => Rejected e
  | Resolved blob =>
      match env (S (S n)) (upload blob) with
      | Rejected e => Rejected e
      | Resolved apiResponse =>
          if ok apiResponse then env (S (S (S n))) (Response_json apiResponse)
          else Rejected (server_error apiResponse)
      end
  end.

(** The operations such a run starts, in order. *)
Definition request_calls (src : string) (env : oracle) (n : nat) : list call :=
  fetch src None ::
  match env n (fetch src None) with
  | Rejected _ => []
  | Resolved response =>
      Response_blob response ::
      match env (S n) (Response_blob response) with
      | Rejected _ => []
      | Resolved blob =>
          upload blob ::
          match env (S (S n)) (upload blob) with
          | Rejected _ => []
          | Resolved apiResponse =>
              if ok apiResponse then [Response_json apiResponse] else []
          end
      end
  end.

(** The store such a run ends in. *)
Definition finish (o : outcome Json) (s : store) : store :=
  match o with
  | Resolved data =>
      with_ui (λ a, mkApp data false (imageSrc a) (isCameraOpen a) None) s
  | Rejected e =>
      with_ui (λ a, mkApp JNull false (imageSrc a) (isCameraOpen a)
                          (Some predict_error_message))
        (push_console "Prediction error:" e s)
  end.

Definition final_store {A : Type} (r : store * list call * ending A) : store := r.1.1.
Definition calls_of {A : Type} (r : store * list call * ending A) : list call := r.1.2.
Definition ending_of {A : Type} (r : store * list call * ending A) : ending A := r.2.

(** ** Invariants of the running page *)

(** The operations only [handlePredict] awaits. *)
Definition is_predict_call (c : call) : bool :=
  match c with
  | fetch _ _ | Response_blob _ | Response_json _ => true
  | getUserMedia _ | readAsDataURL _ => false
  end.

Definition quiet (s : store) : Prop :=
  predictionResult (ui s) = JNull ∧ error (ui s) = None.

(** No track was ever stopped, and the cleanup closure of the mounted
    camera view, if any, holds [null]. *)
Definition unreleased (s : store) : Prop :=
  (∀ i, tracks s !! i ≠ Some ended) ∧
  (∀ inst, camera s = Some inst → cleanup_stream inst = None).

(** Result and error are not both there. *)
Definition exclusive (s : store) : Prop :=
  predictionResult (ui s) = JNull ∨ error (ui s) = None.

Record steady (b : bool) (s : store) : Prop := mkSteady {
  steady_loading : isLoading (ui s) = b;
  steady_quiet : b = true → quiet s;
  steady_exclusive : exclusive s;
  steady_unreleased : unreleased s
}.

(** A program that leaves the request flags as they are, up to clearing
    result and error, and awaits none of the request's operations. *)
Fixpoint bystander (b : bool) (p : js unit) (s : store) : Prop :=
  match p with
  | Ret _ | Throw _ => steady b s
  | Sync f k => bystander b k (f s)
  | Get k => bystander b (k s) s
  | Await c k =>
      steady b s ∧ is_predict_call c = false ∧
      ∀ o b' s', steady b' s' → bystander b' (k o) s'
  end.

(** A program that is a prediction request in flight: at each await the
    store is [steady true], at the end it is [steady false]. *)
Fixpoint requester (p : js unit) (s : store) : Prop :=
  match p with
  | Ret _ | Throw _ => steady false s
  | Sync f k => requester k (f s)
  | Get k => requester (k s) s
  | Await c k =>
      steady true s ∧ is_predict_call c = true ∧
      ∀ o s', steady true s' → requester (k o) s'
  end.

Definition good (t : pending) : Prop :=
  if is_predict_call (p_call t)
  then ∀ o s, steady true s → requester (p_k t o) s
  else ∀ o b s, steady b s → bystander b (p_k t o) s.

Definition in_flight (w : sys) : list pending :=
  filter (λ t, is_predict_call (p_call t) = true) (tasks w).

Record page_inv (w : sys) : Prop := mkInv {
  inv_steady : steady (isLoading (ui (st w))) (st w);
  inv_count : length (in_flight w) = if isLoading (ui (st w)) then 1 else 0;
  inv_good : Forall good (tasks w)
}.

(** ** Concrete environments and inputs *)

Definition sample_image : string := "data:image/png;base64,iVBORw0KGgo=".

Definition sample_store : store :=
  mkStore (mkApp JNull false (Some sample_image) false None)
          (Some (mkInput "" [])) None 0 ∅ [] [] [].

(** A backend that answers the upload with [r] and whose body parses as
    [parsed]; everything else succeeds. *)
Definition backend (r : Response) (parsed : outcome Json) : ∀ c : call, outcome (reply c) :=
  λ c,
    match c with
    | fetch _ (Some _) => Resolved r
    | fetch _ None => Resolved (mkResponse 200 "OK")
    | Response_blob _ => Resolved (mkBlob "image/png" "PNG")
    | Response_json _ => parsed
    | getUserMedia _ => Resolved (mkStream [0])
    | readAsDataURL _ => Resolved sample_image
    end.

(** An environment in which every operation fails. *)
Definition failing (e : JsError) : ∀ c : call, outcome (reply c) :=
  λ _, Rejected e.

Definition eczema : Json :=
  JObj [("prediction", JStr "Eczema"); ("confidence", JNum 87);
        ("description", JStr "...");
        ("precautions", JArr [JStr "See a dermatologist"; JStr "Avoid allergens"])].

Definition permission_denied : JsError := mkError "NotAllowedError" "Permission denied".
Definition failed_to_fetch : JsError := mkError "TypeError" "Failed to fetch".

(** The user grants the camera: a stream with one video track, number 7. *)
Definition granted : ∀ c : call, outcome (reply c) :=
  λ c,
    match c with
    | getUserMedia _ => Resolved (mkStream [7])
    | fetch _ _ => Rejected failed_to_fetch
    | Response_blob _ => Rejected failed_to_fetch
    | Response_json _ => Rejected failed_to_fetch
    | readAsDataURL _ => Rejected failed_to_fetch
    end.

Definition sample_file : File := mkFile "rash.png" "image/png" "PNG".

(** ** Rendering *)

(** The value of the key [key] in a parsed object, [None] for [undefined];
    when the text of the object repeats a key, [JSON.parse] keeps the last
    value. *)
Fixpoint get_field (key : string) (fields : list (string * Json)) : option Json :=
  match fields with
  | [] => None
  | (k, v) :: rest =>
      match get_field key rest with
      | Some later => Some later
      | None => if String.eqb k key then Some v else None
      end
  end.

(** [v.key] for a value [v] other than [null] and a key that no built-in
    prototype defines, as are the four keys [PredictionResult] reads:
    only an object can have it. *)
Definition member (v : Json) (key : string) : option Json :=
  match v with
  | JObj fields => get_field key fields
  | _ => None
  end.

(** What a JSX slot comes to on the page: nothing, a text, an element, or
    rendering it throws. *)
Inductive rendered (A : Type) : Type :=
| Nothing
| Text (s : string)
| Element (a : A)
| Throws.
Arguments Nothing {A}.
Arguments Text {A} s.
Arguments Element {A} a.
Arguments Throws {A}.

(** The element [PredictionResult] returns, by the values it places in it:
    the [src] of the image, the three children taken from [result], and the
    list items, each with its [key]. *)
Record ResultView : Type := mkResultView {
  shown_image : option string;
  shown_prediction : option Json;
  shown_confidence : option Json;
  shown_description : option Json;
  shown_precautions : list (nat * Json)
}.

(** React's rule for a value placed as a child, [{v}]: a string or a number
    is drawn as text, [null] and booleans draw nothing, an array is drawn
    item by item, and an object makes React throw ("Objects are not valid
    as a React child"). *)
Fixpoint valid_child (v : Json) : bool :=
  match v with
  | JNull | JBool _ | JNum _ | JStr _ => true
  | JArr items => forallb valid_child items
  | JObj _ => false
  end.

(** The same for [{result.key}]: [undefined] draws nothing. *)
Definition valid_slot (v : option Json) : bool :=
  match v with
  | Some x => valid_child x
  | None => true
  end.

(** The children of the element of [PredictionResult] can all be drawn. *)
Definition drawable (result : Json) (precautions : list Json) : bool :=
  valid_slot (member result "prediction") &&
  valid_slot (member result "confidence") &&
  valid_slot (member result "description") &&
  forallb valid_child precautions.

(** Rendering [<PredictionResult result imageSrc />]: nothing for a falsy
    [result]; [result.precautions.map(...)] throws unless
    [result.precautions] is an array; and React throws when it comes to
    draw a child of the returned element that is an object.  Otherwise the
    element is shown. *)
Definition PredictionResult (result : Json) (imageSrc : option string)
  : rendered ResultView :=
  if negb (truthy_json result) then Nothing
  else
    match member result "precautions" with
    | Some (JArr precautions) =>
        if drawable result precautions
        then Element (mkResultView imageSrc
                        (member result "prediction")
                        (member result "confidence")
                        (member result "description")
                        (imap (λ index precaution, (index, precaution)) precautions))
        else Throws
    | _ => Throws
    end.

(** The parts of the page of [DiseasePrediction] that depend on its state. *)
Record PageView : Type := mkPage {
  camera_view : bool;
  preview : option string;
  predict_disabled : bool;
  predict_label : string;
  error_banner : option string;
  result_panel : rendered ResultView
}.

(** The JSX of [DiseasePrediction].  [{x && <E/>}] evaluates to [x] when [x]
    is falsy; React draws nothing for [null], [false] and the empty string,
    and draws the number for [0]. *)
Definition render (a : AppState) : PageView :=
  mkPage
    (isCameraOpen a)
    (if truthy (imageSrc a) then imageSrc a else None)
    (isLoading a || negb (truthy (imageSrc a)))
    (if isLoading a then "Analyzing Image..." else "Predict Condition")
    (if truthy (error a) then error a else None)
    (if truthy_json (predictionResult a)
     then PredictionResult (predictionResult a) (imageSrc a)
     else match predictionResult a with
          | JNum _ => Text "0"
          | _ => Nothing
          end).

(** ** Store invariants in general *)

(** Every synchronous step of [p], at any point of its run, preserves [P]. *)
Fixpoint stable (P : store → Prop) (p : js unit) : Prop :=
  match p with
  | Ret _ | Throw _ => True
  | Sync f k => (∀ s, P s → P (f s)) ∧ stable P k
  | Get k => ∀ s, stable P (k s)
  | Await c k => ∀ o, stable P (k o)
  end.

Definition stable_task (P : store → Prop) (t : pending) : Prop :=
  ∀ o, stable P (p_k t o).

(** Track [i] is live and no cleanup closure could stop it. *)
Definition held (i : nat) (s : store) : Prop :=
  tracks s !! i = Some live ∧
  ∀ inst, camera s = Some inst → cleanup_stream inst = None.

(** No camera view is mounted or asked for. *)
Definition camera_closed (s : store) : Prop :=
  camera s = None ∧ isCameraOpen (ui s) = false.


(** A service whose four operations succeed: the data URI [src] reads as
    [blob], the upload is answered by [r], whose body parses as [data]; a
    file reads as the data URI [dataURL]. *)
Definition service (blob : Blob) (r : Response) (data : Json) (dataURL : string)
  : ∀ c : call, outcome (reply c) :=
  λ c,
    match c with
    | fetch _ (Some _) => Resolved r
    | fetch _ None => Resolved (mkResponse 200 "OK")
    | Response_blob _ => Resolved blob
    | Response_json _ => Resolved data
    | getUserMedia _ => Rejected permission_denied
    | readAsDataURL _ => Resolved dataURL
    end.

(** ** The camera session under any schedule *)

(** What stays pending when [p] is started on [s], if anything. *)
Definition pending_of (p : js unit) (s : store) : option pending :=
  match run_sync p s with
  | (_, Blocked c k) => Some (mkPending c k)
  | _ => None
  end.

(** Whatever [p] leaves pending preserves [P] at every step once resumed;
    nothing is asked of the steps before its first await. *)
Fixpoint stable_tail (P : store → Prop) (p : js unit) : Prop :=
  match p with
  | Ret _ | Throw _ => True
  | Sync _ k => stable_tail P k
  | Get k => ∀ s, stable_tail P (k s)
  | Await c k => ∀ o, stable P (k o)
  end.

(** The acquisition callback has been invoked with exactly these payloads. *)
Definition captured (payloads : list string) (s : store) : Prop :=
  onCapture_calls s = payloads.

Definition is_capture (ev : event) : bool :=
  match ev with
  | ClickCapture _ => true
  | _ => false
  end.

(** * Properties *)

(** ** A run of [handlePredict] in isolation *)

Lemma handlePredict_exec src env n s :
  truthy (Some src) = true →
  exec (handlePredict (Some src)) env n s
  = (finish (request_outcome src env n) s, request_calls src env n, Returned ()).
Proof.
  intros Hsrc. unfold handlePredict, request_outcome, request_calls, conversion.
  rewrite Hsrc. cbn.
  destruct (env n (fetch src None)) as [response|e]; cbn; [|done].
  destruct (env (S n) (Response_blob response)) as [blob|e]; cbn; [|done].
  fold (upload blob).
  destruct (env (S (S n)) (upload blob)) as [apiResponse|e]; cbn; [|done].
  destruct (ok apiResponse); cbn; [|done].
  destruct (env (S (S (S n))) (Response_json apiResponse)) as [data|e]; cbn; done.
Qed.

(** The ways a run can fail are those the hypothesis
    [request_outcome src env n = Rejected e] covers: the conversion of the
    data URI fails, the upload is rejected (network failure), the service
    answers with a status outside 200-299, or the body does not parse. *)
Lemma request_outcome_rejected src env n e :
  request_outcome src env n = Rejected e ↔
  conversion src env n = Rejected e ∨
  ∃ blob, conversion src env n = Resolved blob ∧
    (env (S (S n)) (upload blob) = Rejected e ∨
     ∃ apiResponse, env (S (S n)) (upload blob) = Resolved apiResponse ∧
       ((ok apiResponse = false ∧ e = server_error apiResponse) ∨
        (ok apiResponse = true ∧
         env (S (S (S n))) (Response_json apiResponse) = Rejected e))).
Proof.
  unfold request_outcome. split.
  - intros H. destruct (conversion src env n) as [blob|e0]; [|injection H as ->; by left].
    right. exists blob. split; [done|].
    destruct (env (S (S n)) (upload blob)) as [apiResponse|e1]; [|injection H as ->; by left].
    right. exists apiResponse. split; [done|].
    destruct (ok apiResponse); [right|left]; split; try done; congruence.
  - intros [->|(blob & -> & [->|(apiResponse & -> & [[-> ->]|[-> ->]])])]; done.
Qed.

Lemma request_outcome_resolved src env n data :
  request_outcome src env n = Resolved data ↔
  ∃ blob apiResponse,
    conversion src env n = Resolved blob ∧
    env (S (S n)) (upload blob) = Resolved apiResponse ∧
    ok apiResponse = true ∧
    env (S (S (S n))) (Response_json apiResponse) = Resolved data.
Proof.
  unfold request_outcome. split.
  - destruct (conversion src env n) as [blob|]; [|done].
    destruct (env (S (S n)) (upload blob)) as [apiResponse|] eqn:Hup; [|done].
    destruct (ok apiResponse) eqn:Hok; [|done].
    intros H. by exists blob, apiResponse.
  - intros (blob & apiResponse & -> & -> & -> & ->). done.
Qed.

Lemma ok_range r : ok r = true ↔ (200 ≤ status r ≤ 299)%N.
Proof. unfold ok. rewrite andb_true_iff, !N.leb_le. done. Qed.

(** C4.  With no acquired image ([imageSrc] is [null] or the empty string)
    [handlePredict] returns at once: the store is unchanged, in all its
    parts, and no operation is started. *)
Theorem handlePredict_without_image v env n s :
  truthy v = false →
  exec (handlePredict v) env n s = (s, [], Returned ()) ∧
  run_sync (handlePredict v) s = (s, Done ()).
Proof.
  intros Hv. destruct v as [src|]; [|done].
  unfold handlePredict. rewrite Hv. done.
Qed.

Lemma handlePredict_without_image_witness :
  exec (handlePredict (Some "")) (always (backend (mkResponse 200 "OK") (Resolved eczema)))
       0 init_store
  = (init_store, [], Returned ()) ∧
  run_sync (handlePredict (Some "")) init_store = (init_store, Done ()).
Proof. apply handlePredict_without_image. reflexivity. Defined.

(** C2, as amended.  A run of [handlePredict] with an image present returns
    (nothing escapes it) with [isLoading] false; result and error are never
    both present; exactly one of them is present, except when the run
    succeeds with a falsy parsed body, where neither is. *)
Theorem handlePredict_postcondition src env n s :
  truthy (Some src) = true →
  let r := exec (handlePredict (Some src)) env n s in
  ending_of r = Returned () ∧
  isLoading (ui (final_store r)) = false ∧
  predictionResult (ui (final_store r)) =
    match request_outcome src env n with
    | Resolved data => data
    | Rejected _ => JNull
    end ∧
  error (ui (final_store r)) =
    match request_outcome src env n with
    | Resolved _ => None
    | Rejected _ => Some predict_error_message
    end ∧
  ¬ (truthy_json (predictionResult (ui (final_store r))) = true ∧
     truthy (error (ui (final_store r))) = true) ∧
  exactly_one (ui (final_store r)) =
    match request_outcome src env n with
    | Resolved data => truthy_json data
    | Rejected _ => true
    end.
Proof.
  intros Hsrc r. subst r. rewrite handlePredict_exec by done.
  unfold final_store, ending_of, exactly_one.
  destruct (request_outcome src env n) as [data|e]; cbn.
  - repeat split; [intros [_ ?]; done|]. by destruct (truthy_json data).
  - repeat split. intros [? _]; done.
Qed.

Lemma handlePredict_postcondition_witness :
  let r := exec (handlePredict (Some sample_image))
                (always (backend (mkResponse 200 "OK") (Resolved eczema))) 0 sample_store in
  ending_of r = Returned () ∧
  isLoading (ui (final_store r)) = false ∧
  predictionResult (ui (final_store r)) = eczema ∧
  error (ui (final_store r)) = None ∧
  ¬ (truthy_json (predictionResult (ui (final_store r))) = true ∧
     truthy (error (ui (final_store r))) = true) ∧
  exactly_one (ui (final_store r)) = true.
Proof.
  exact (handlePredict_postcondition sample_image
           (always (backend (mkResponse 200 "OK") (Resolved eczema))) 0 sample_store
           eq_refl).
Defined.

(** C2, counterexample.  The service answers 200 with the body [null]: the
    run ends with neither a result nor an error. *)
Lemma handlePredict_null_body_neither :
  let r := exec (handlePredict (Some sample_image))
                (always (backend (mkResponse 200 "OK") (Resolved JNull))) 0 sample_store in
  ¬ (isLoading (ui (final_store r)) = false ∧ exactly_one (ui (final_store r)) = true).
Proof. cbn. intros [_ H]. discriminate H. Qed.

(** C3, as amended.  A run of [handlePredict] with an image present sends
    one POST when the data URI converts to a blob, and none when the
    conversion fails.  The POST goes to the fixed endpoint, and its body has
    the single field "file", holding that blob under the file name
    "skin_image.jpg". *)
Theorem handlePredict_posts src env n s :
  truthy (Some src) = true →
  posts (calls_of (exec (handlePredict (Some src)) env n s)) =
    match conversion src env n with
    | Resolved blob =>
        [fetch "http://localhost:8000/predict"
               (Some (mkInit "POST" [mkEntry "file" blob "skin_image.jpg"]))]
    | Rejected _ => []
    end.
Proof.
  intros Hsrc. rewrite handlePredict_exec by done.
  unfold calls_of, request_calls, conversion, posts. cbn.
  destruct (env n (fetch src None)) as [response|]; [|done]. cbn.
  destruct (env (S n) (Response_blob response)) as [blob|]; [|done]. cbn.
  destruct (env (S (S n)) (upload blob)) as [apiResponse|]; [|done].
  by destruct (ok apiResponse).
Qed.

Lemma handlePredict_posts_witness :
  posts (calls_of (exec (handlePredict (Some sample_image))
                        (always (backend (mkResponse 200 "OK") (Resolved eczema)))
                        0 sample_store)) =
  [fetch "http://localhost:8000/predict"
         (Some (mkInit "POST" [mkEntry "file" (mkBlob "image/png" "PNG") "skin_image.jpg"]))].
Proof.
  exact (handlePredict_posts sample_image
           (always (backend (mkResponse 200 "OK") (Resolved eczema))) 0 sample_store
           eq_refl).
Defined.

(** C3, counterexample.  When reading the data URI fails, the run sends no
    POST at all. *)
Lemma handlePredict_may_post_nothing :
  length (posts (calls_of (exec (handlePredict (Some sample_image))
                                (always (failing failed_to_fetch)) 0 sample_store))) ≠ 1.
Proof. cbn. discriminate. Qed.

(** C6.  A failing run of [handlePredict] (see
    [request_outcome_rejected] for the ways it fails) returns normally: the
    failure is caught and logged, the error is the fixed message, which is
    not empty, the result is [null], [isLoading] is false and the state
    reads as failed. *)
Theorem handlePredict_failure src env n s e :
  truthy (Some src) = true →
  request_outcome src env n = Rejected e →
  let r := exec (handlePredict (Some src)) env n s in
  ending_of r = Returned () ∧
  console (final_store r) = console s ++ [("Prediction error:", e)] ∧
  error (ui (final_store r)) =
    Some "Error predicting disease. Please try again. Make sure the backend server is running." ∧
  truthy (error (ui (final_store r))) = true ∧
  predictionResult (ui (final_store r)) = JNull ∧
  isLoading (ui (final_store r)) = false ∧
  requestState (ui (final_store r)) = ReqFailed.
Proof.
  intros Hsrc Hfail r. subst r.
  rewrite handlePredict_exec, Hfail by done. done.
Qed.

Lemma handlePredict_failure_witness :
  let r := exec (handlePredict (Some sample_image))
                (always (backend (mkResponse 500 "Internal Server Error") (Resolved eczema)))
                0 sample_store in
  ending_of r = Returned () ∧
  console (final_store r) =
    [("Prediction error:",
      mkError "Error" "Server returned 500: Internal Server Error")] ∧
  error (ui (final_store r)) =
    Some "Error predicting disease. Please try again. Make sure the backend server is running." ∧
  truthy (error (ui (final_store r))) = true ∧
  predictionResult (ui (final_store r)) = JNull ∧
  isLoading (ui (final_store r)) = false ∧
  requestState (ui (final_store r)) = ReqFailed.
Proof.
  exact (handlePredict_failure sample_image
           (always (backend (mkResponse 500 "Internal Server Error") (Resolved eczema)))
           0 sample_store _ eq_refl eq_refl).
Defined.

(** C7, as amended.  A successful run of [handlePredict] stores the parsed
    body as the result, leaves the error [null] and [isLoading] false; the
    state reads as succeeded when the parsed body is truthy, as every JSON
    object is, and as idle when it is falsy. *)
Theorem handlePredict_success src env n s data :
  truthy (Some src) = true →
  request_outcome src env n = Resolved data →
  let r := exec (handlePredict (Some src)) env n s in
  ending_of r = Returned () ∧
  predictionResult (ui (final_store r)) = data ∧
  error (ui (final_store r)) = None ∧
  isLoading (ui (final_store r)) = false ∧
  requestState (ui (final_store r)) =
    (if truthy_json data then ReqSucceeded else ReqIdle) ∧
  (∀ fields, data = JObj fields → requestState (ui (final_store r)) = ReqSucceeded).
Proof.
  intros Hsrc Hok r. subst r.
  rewrite handlePredict_exec, Hok by done.
  repeat split. by intros fields ->.
Qed.

Lemma handlePredict_success_witness :
  let r := exec (handlePredict (Some sample_image))
                (always (backend (mkResponse 200 "OK") (Resolved eczema))) 0 sample_store in
  ending_of r = Returned () ∧
  predictionResult (ui (final_store r)) = eczema ∧
  error (ui (final_store r)) = None ∧
  isLoading (ui (final_store r)) = false ∧
  requestState (ui (final_store r)) = ReqSucceeded ∧
  (∀ fields, eczema = JObj fields → requestState (ui (final_store r)) = ReqSucceeded).
Proof.
  exact (handlePredict_success sample_image
           (always (backend (mkResponse 200 "OK") (Resolved eczema))) 0 sample_store
           eczema eq_refl eq_refl).
Defined.

(** C7, counterexample.  The service answers 200 and the body parses, as
    [null]: the flags after the run are those of the idle state. *)
Lemma handlePredict_null_body_idle :
  request_outcome sample_image
    (always (backend (mkResponse 200 "OK") (Resolved JNull))) 0 = Resolved JNull ∧
  requestState (ui (final_store
    (exec (handlePredict (Some sample_image))
          (always (backend (mkResponse 200 "OK") (Resolved JNull))) 0 sample_store)))
  ≠ ReqSucceeded.
Proof. split; [reflexivity|]. cbn. discriminate. Qed.

(** ** Acquisition and clearing *)

(** C5.  Each acquisition makes the new data URI the image and clears result
    and error: [handleCameraCapture] for its argument, [handleCapture] of
    the camera view for the data URI of its canvas, and [handleImageChange]
    for the data URI the reader of the first selected file loads. *)
Theorem acquisition_replaces_image :
  (∀ imageData s,
     let r := run_sync (handleCameraCapture imageData) s in
     r.2 = Done () ∧
     imageSrc (ui r.1) = Some imageData ∧
     predictionResult (ui r.1) = JNull ∧ error (ui r.1) = None) ∧
  (∀ toDataURL s,
     let r := run_sync (handleCapture toDataURL onCapture onClose) s in
     r.2 = Done () ∧
     imageSrc (ui r.1) = Some toDataURL ∧
     predictionResult (ui r.1) = JNull ∧ error (ui r.1) = None) ∧
  (∀ file rest env n s dataURL,
     env n (readAsDataURL file) = Resolved dataURL →
     let r := exec (handleImageChange (file :: rest)) env n s in
     ending_of r = Returned () ∧
     imageSrc (ui (final_store r)) = Some dataURL ∧
     predictionResult (ui (final_store r)) = JNull ∧
     error (ui (final_store r)) = None).
Proof.
  split; [done|]. split; [done|].
  intros file rest env n s dataURL Hread r. subst r.
  cbn. rewrite Hread. done.
Qed.

Lemma acquisition_replaces_image_witness :
  let r := exec (handleImageChange [sample_file])
                (always (backend (mkResponse 200 "OK") (Resolved eczema))) 0
                (finish (Resolved eczema) sample_store) in
  ending_of r = Returned () ∧
  imageSrc (ui (final_store r)) = Some sample_image ∧
  predictionResult (ui (final_store r)) = JNull ∧
  error (ui (final_store r)) = None.
Proof.
  exact (proj2 (proj2 acquisition_replaces_image) sample_file []
           (always (backend (mkResponse 200 "OK") (Resolved eczema))) 0
           (finish (Resolved eczema) sample_store) sample_image eq_refl).
Defined.

(** C8.  [handleClear] sets image, result and error to [null] and empties
    the file input behind [fileInputRef], whatever the store was, and
    running it a second time changes nothing. *)
Theorem handleClear_resets_and_idempotent s :
  let r := run_sync handleClear s in
  r.2 = Done () ∧
  imageSrc (ui r.1) = None ∧
  predictionResult (ui r.1) = JNull ∧
  error (ui r.1) = None ∧
  fileInputRef r.1 = (λ _, mkInput "" []) <$> fileInputRef s ∧
  isLoading (ui r.1) = isLoading (ui s) ∧
  run_sync handleClear r.1 = r.
Proof.
  intros r. subst r. cbn.
  destruct (fileInputRef s) as [el|] eqn:Hel; cbn; rewrite ?Hel; done.
Qed.

(** ** The running page: invariants *)

Lemma steady_ui_frame b s s' :
  ui s' = ui s → tracks s' = tracks s → camera s' = camera s →
  steady b s → steady b s'.
Proof.
  intros Hui Htr Hcam [Hl Hq He Hu].
  split; unfold quiet, exclusive, unreleased in *; by rewrite ?Hui, ?Htr, ?Hcam.
Qed.

Lemma steady_clear b s (f : AppState → AppState) :
  (∀ a, isLoading (f a) = isLoading a) →
  (∀ a, predictionResult a = JNull → predictionResult (f a) = JNull) →
  (∀ a, error a = None → error (f a) = None) →
  steady b s → steady b (with_ui f s).
Proof.
  intros Hl Hr He [Hb Hq Hx Hu]. split; [| | |done].
  - cbn. by rewrite Hl.
  - intros Hbt. destruct (Hq Hbt) as [? ?]. split; cbn; auto.
  - destruct Hx as [?|?]; [left|right]; cbn; auto.
Qed.

Lemma steady_on_instance b s id f :
  (∀ inst, cleanup_stream (f inst) = cleanup_stream inst) →
  steady b s → steady b (with_camera (on_instance id f) s).
Proof.
  intros Hf [Hb Hq Hx [Hu Hc]]. split; [done|done|done|]. split; [done|].
  intros inst. cbn. unfold on_instance.
  destruct (camera s) as [inst0|]; [|done].
  case_decide; intros [= <-]; rewrite ?Hf; by apply Hc.
Qed.

Lemma settle_ui c o s : ui (settle c o s) = ui s.
Proof. destruct c; try done. by destruct o. Qed.

Lemma settle_camera c o s : camera (settle c o s) = camera s.
Proof. destruct c; try done. by destruct o. Qed.

Lemma steady_settle b c o s : steady b s → steady b (settle c o s).
Proof.
  intros [Hb Hq Hx [Hu Hc]].
  split; unfold quiet, exclusive, unreleased; rewrite ?settle_ui, ?settle_camera;
    [done|done|done|]. split; [|done].
  destruct c; try done. destruct o as [ms|]; [|done].
  intros i. cbn. induction (getTracks ms) as [|j l IH]; cbn; [apply Hu|].
  destruct (decide (j = i)) as [->|Hne].
  - by rewrite lookup_insert_eq.
  - by rewrite lookup_insert_ne.
Qed.

Lemma steady_unmount b inst s :
  camera s = Some inst → steady b s → steady b (CameraView_unmount inst s).
Proof.
  intros Hcam [Hb Hq Hx [Hu Hc]].
  unfold CameraView_unmount. rewrite (Hc inst Hcam). cbn.
  split; [done|done|done|]. by split.
Qed.

Lemma steady_mount b s :
  steady b s →
  steady b (with_next_id (S (next_id s))
              (with_camera (λ _, Some (mkCamera (next_id s) None None None)) s)).
Proof.
  intros [Hb Hq Hx [Hu Hc]]. split; [done|done|done|]. split; [done|].
  cbn. by intros inst [= <-].
Qed.

Lemma bystander_run b p : ∀ s,
  bystander b p s →
  match run_sync p s with
  | (s', Blocked c k) =>
      steady b s' ∧ is_predict_call c = false ∧
      ∀ o b' s'', steady b' s'' → bystander b' (k o) s''
  | (s', _) => steady b s'
  end.
Proof.
  induction p as [| | f k IH | k IH | c k IH]; intros s Hp; cbn in *;
    [done | done | by apply IH | by apply IH | done].
Qed.

Lemma requester_run p : ∀ s,
  requester p s →
  match run_sync p s with
  | (s', Blocked c k) =>
      steady true s' ∧ is_predict_call c = true ∧
      ∀ o s'', steady true s'' → requester (k o) s''
  | (s', _) => steady false s'
  end.
Proof.
  induction p as [| | f k IH | k IH | c k IH]; intros s Hp; cbn in *;
    [done | done | by apply IH | by apply IH | done].
Qed.

(** The programs of the page, classified. *)

Ltac steady_step :=
  lazymatch goal with
  | |- steady _ (with_ui _ _) => apply steady_clear; [done | done | done |]
  | |- steady _ (with_camera (on_instance _ _) _) => apply steady_on_instance; [done |]
  | |- steady _ (with_fileInput _ ?s) => apply (steady_ui_frame _ s); [done | done | done |]
  | |- steady _ (push_alert _ ?s) => apply (steady_ui_frame _ s); [done | done | done |]
  | |- steady _ (push_console _ _ ?s) => apply (steady_ui_frame _ s); [done | done | done |]
  | |- steady _ (push_onCapture _ ?s) => apply (steady_ui_frame _ s); [done | done | done |]
  end.

Lemma handleCameraCapture_bystander b imageData s :
  steady b s → bystander b (handleCameraCapture imageData) s.
Proof. intros H. cbn. repeat steady_step. done. Qed.

Lemma steady_false_intro b s s' :
  steady b s →
  isLoading (ui s') = false → exclusive s' →
  tracks s' = tracks s → camera s' = camera s →
  steady false s'.
Proof.
  intros [_ _ _ [Hu Hc]] Hl Hx Htr Hcam. split; [done|done|done|].
  unfold unreleased. by rewrite Htr, Hcam.
Qed.

Lemma steady_true_intro b s s' :
  steady b s →
  isLoading (ui s') = true → predictionResult (ui s') = JNull → error (ui s') = None →
  tracks s' = tracks s → camera s' = camera s →
  steady true s'.
Proof.
  intros [_ _ _ [Hu Hc]] Hl Hr He Htr Hcam. split; [done|done|by left|].
  unfold unreleased. by rewrite Htr, Hcam.
Qed.

(** The last segment of a request starts from a quiet store and sets the
    result or the error, not both. *)
Ltac ends_with H :=
  apply (steady_false_intro _ _ _ H);
  [ reflexivity
  | first [ left; exact (proj1 (steady_quiet _ _ H eq_refl))
          | right; exact (proj2 (steady_quiet _ _ H eq_refl)) ]
  | reflexivity
  | reflexivity ].

Lemma handlePredict_requester src s :
  truthy (Some src) = true → steady false s →
  requester (handlePredict (Some src)) s.
Proof.
  intros Hsrc Hs. unfold handlePredict. rewrite Hsrc. cbn.
  split; [apply (steady_true_intro _ _ _ Hs); reflexivity|]. split; [done|].
  intros [response|e] s1 H1; cbn; [|ends_with H1].
  split; [done|]. split; [done|].
  intros [blob|e] s2 H2; cbn; [|ends_with H2].
  split; [done|]. split; [done|].
  intros [apiResponse|e] s3 H3; cbn; [|ends_with H3].
  destruct (ok apiResponse); cbn; [|ends_with H3].
  split; [done|]. split; [done|].
  intros [data|e] s4 H4; cbn; ends_with H4.
Qed.

Lemma handleImageChange_bystander b fs s :
  steady b s → bystander b (handleImageChange fs) s.
Proof.
  intros Hs. destruct fs as [|file rest]; cbn; [done|].
  split; [done|]. split; [done|].
  intros [result|e] b' s' Hs'; cbn; [|done].
  repeat steady_step. done.
Qed.

Lemma handleClear_bystander b s : steady b s → bystander b handleClear s.
Proof.
  intros Hs. cbn. destruct (fileInputRef s); cbn; repeat steady_step; done.
Qed.

Lemma onClose_bystander b s : steady b s → bystander b onClose s.
Proof. intros Hs. cbn. repeat steady_step. done. Qed.

Lemma openCamera_bystander b id s : steady b s → bystander b (openCamera id onClose) s.
Proof.
  intros Hs. cbn. split; [done|]. split; [done|].
  intros [mediaStream|e] b' s' Hs'; cbn; repeat steady_step; done.
Qed.

Lemma handler_classified ev s :
  steady (isLoading (ui s)) s →
  bystander (isLoading (ui s)) (handler ev s) s ∨
  (isLoading (ui s) = false ∧ requester (handler ev s) s).
Proof.
  intros Hs. destruct ev as [fs| | | |toDataURL| |i env]; cbn [handler].
  - left. cbn. apply handleImageChange_bystander. by steady_step.
  - left. cbn. repeat steady_step. done.
  - destruct (isLoading (ui s)) eqn:Hl; cbn; [by left|].
    destruct (imageSrc (ui s)) as [src|] eqn:Hsrc; [|by left].
    destruct (truthy (Some src)) eqn:Ht; cbn; [|by left].
    right. split; [done|]. by apply handlePredict_requester.
  - left. destruct (truthy (imageSrc (ui s))); [|done].
    by apply handleClear_bystander.
  - left. destruct (camera s); [|done]. cbn. repeat steady_step. done.
  - left. destruct (camera s); [|done]. by apply onClose_bystander.
  - by left.
Qed.

(** Preservation by the steps of the page. *)

Lemma filter_delete_out {A} (P : A → Prop) `{∀ x, Decision (P x)} (l : list A) i x :
  l !! i = Some x → ¬ P x → filter P (delete i l) = filter P l.
Proof.
  revert i. induction l as [|y l IH]; intros [|i] Hi Hx; simplify_eq/=; [|].
  - by rewrite filter_cons_False.
  - rewrite !filter_cons. by rewrite (IH i).
Qed.

Lemma filter_delete_in {A} (P : A → Prop) `{∀ x, Decision (P x)} (l : list A) i x :
  l !! i = Some x → P x → S (length (filter P (delete i l))) = length (filter P l).
Proof.
  revert i. induction l as [|y l IH]; intros [|i] Hi Hx; simplify_eq/=; [|].
  - by rewrite filter_cons_True.
  - rewrite !filter_cons. destruct (decide (P y)); cbn; by rewrite (IH i).
Qed.

Lemma launch_bystander w p :
  page_inv w → bystander (isLoading (ui (st w))) p (st w) → page_inv (launch p w).
Proof.
  intros [Hs Hc Hg] Hp. apply bystander_run in Hp. unfold launch.
  destruct (run_sync p (st w)) as [s' [a|e|c k]].
  - pose proof (steady_loading _ _ Hp) as Hl.
    split; cbn; [by rewrite Hl | by rewrite Hl | done].
  - pose proof (steady_loading _ _ Hp) as Hl.
    split; cbn; [by rewrite Hl | by rewrite Hl | done].
  - destruct Hp as (Hs' & Hpc & Hk).
    pose proof (steady_loading _ _ Hs') as Hl.
    split; cbn; [by rewrite Hl | |].
    + unfold in_flight in *. cbn. rewrite filter_app, length_app.
      rewrite filter_cons_False by (cbn; congruence).
      rewrite Hl. cbn. rewrite Hc. lia.
    + apply Forall_app. split; [done|]. apply Forall_singleton.
      unfold good. cbn. by rewrite Hpc.
Qed.

Lemma launch_requester w p :
  Forall good (tasks w) → length (in_flight w) = 0 →
  requester p (st w) → page_inv (launch p w).
Proof.
  intros Hg Hc Hp. apply requester_run in Hp. unfold launch.
  destruct (run_sync p (st w)) as [s' [a|e|c k]].
  - pose proof (steady_loading _ _ Hp) as Hl.
    split; cbn; [by rewrite Hl | by rewrite Hl | done].
  - pose proof (steady_loading _ _ Hp) as Hl.
    split; cbn; [by rewrite Hl | by rewrite Hl | done].
  - destruct Hp as (Hs' & Hpc & Hk).
    pose proof (steady_loading _ _ Hs') as Hl.
    split; cbn; [by rewrite Hl | |].
    + unfold in_flight in *. cbn. rewrite filter_app, length_app.
      rewrite filter_cons_True by done.
      rewrite Hl. cbn. rewrite Hc. done.
    + apply Forall_app. split; [done|]. apply Forall_singleton.
      unfold good. cbn. by rewrite Hpc.
Qed.

Lemma commit_inv w : page_inv w → page_inv (commit w).
Proof.
  intros Hw. unfold commit.
  destruct (camera (st w)) as [inst|] eqn:Hcam;
    destruct (isCameraOpen (ui (st w))) eqn:Hopen; try done.
  - destruct Hw as [Hs Hc Hg].
    pose proof (steady_unmount _ inst _ Hcam Hs) as Hs'.
    assert (cleanup_stream inst = None) as Hnone by by apply Hs.
    unfold CameraView_unmount in *. rewrite Hnone in *.
    split; cbn; done.
  - unfold CameraView_mount. cbv beta iota zeta.
    assert (page_inv (mkSys
              (with_next_id (S (next_id (st w)))
                 (with_camera (λ _, Some (mkCamera (next_id (st w)) None None None)) (st w)))
              (tasks w) (started w))) as Hw'.
    { destruct Hw as [Hs Hc Hg]. split; cbn; [|done|done]. by apply steady_mount. }
    apply launch_bystander; [done|].
    apply openCamera_bystander, Hw'.
Qed.

Lemma fire_inv ev w : page_inv w → page_inv (fire ev w).
Proof.
  intros Hw. destruct ev as [fs| | | |toDataURL| |i env].
  1-6: unfold fire; apply commit_inv;
    match goal with |- page_inv (launch (handler ?ev _) _) =>
      destruct (handler_classified ev (st w) (inv_steady w Hw)) as [Hb|[Hl Hr]]
    end;
    [ by apply launch_bystander
    | apply launch_requester; [apply Hw | by rewrite (inv_count w Hw), Hl | done] ].
  unfold fire. destruct (tasks w !! i) as [t|] eqn:Ht; [|done].
  apply commit_inv.
  destruct Hw as [Hs Hc Hg].
  pose proof (Forall_lookup_1 _ _ _ _ Hg Ht) as Hgt. unfold good in Hgt.
  destruct (is_predict_call (p_call t)) eqn:Hpc.
  - assert (isLoading (ui (st w)) = true) as Hl.
    { destruct (isLoading (ui (st w))); [done|].
      unfold in_flight in Hc.
      pose proof (filter_delete_in (λ t, is_predict_call (p_call t) = true)
                    (tasks w) i t Ht Hpc). lia. }
    rewrite Hl in Hs, Hc.
    apply launch_requester; cbn.
    + by apply Forall_delete.
    + unfold in_flight in *. cbn.
      pose proof (filter_delete_in (λ t, is_predict_call (p_call t) = true)
                    (tasks w) i t Ht Hpc). lia.
    + apply Hgt. by apply steady_settle.
  - apply launch_bystander; cbn.
    + split; cbn.
      * rewrite settle_ui.
        by apply steady_settle.
      * rewrite settle_ui.
        unfold in_flight in *. cbn.
        rewrite (filter_delete_out _ _ i t); [done|done|congruence].
      * by apply Forall_delete.
    + rewrite settle_ui.
      apply Hgt. by apply steady_settle.
Qed.

Lemma init_inv : page_inv init.
Proof.
  split; cbn; [|done|done].
  split; [done | done | by left |]. split; [|done].
  intros i. cbn. by rewrite lookup_empty.
Qed.

Lemma reachable_inv w : reachable w → page_inv w.
Proof. induction 1; [apply init_inv | by apply fire_inv]. Qed.

Lemma reachable_run_from evs : ∀ w, reachable w → reachable (foldl (λ w ev, fire ev w) w evs).
Proof.
  induction evs as [|ev evs IH]; intros w Hw; cbn; [done|].
  apply IH. by constructor.
Qed.

Lemma reachable_run evs : reachable (run evs).
Proof. apply reachable_run_from. constructor. Qed.

(** In no reachable state has any track been stopped: the cleanup closure
    of a camera view always holds the [null] of its first render. *)
Lemma tracks_never_stopped w i : reachable w → tracks (st w) !! i ≠ Some ended.
Proof. intros Hw. apply (steady_unreleased _ _ (inv_steady w (reachable_inv w Hw))). Qed.

(** In no reachable state are a result and an error both set. *)
Lemma result_and_error_never_both w :
  reachable w → predictionResult (ui (st w)) = JNull ∨ error (ui (st w)) = None.
Proof. intros Hw. apply (steady_exclusive _ _ (inv_steady w (reachable_inv w Hw))). Qed.

(** The whole flow on the page: a file is chosen and read, the prediction
    is requested and every operation succeeds. *)
Example page_predict_flow :
  let service := backend (mkResponse 200 "OK") (Resolved eczema) in
  let w := run [ChooseFiles [sample_file]; Settles 0 service; ClickPredict;
                Settles 0 service; Settles 0 service; Settles 0 service;
                Settles 0 service] in
  ui (st w) = mkApp eczema false (Some sample_image) false None ∧
  tasks w = [] ∧
  posts (started w) = [upload (mkBlob "image/png" "PNG")].
Proof. vm_compute. done. Qed.

(** A second click on the disabled button starts nothing. *)
Example page_predict_click_twice :
  let service := backend (mkResponse 200 "OK") (Resolved eczema) in
  let w := run [ChooseFiles [sample_file]; Settles 0 service; ClickPredict] in
  fire ClickPredict w = w ∧ length (tasks w) = 1.
Proof. vm_compute. done. Qed.

(** C10.  In every state the page can reach, while [isLoading] is true the
    result and the error are both [null]; a request of [handlePredict] is
    waiting at an await exactly when [isLoading] is true, and there is at
    most one such request. *)
Theorem loading_excludes_result_and_error w :
  reachable w →
  (isLoading (ui (st w)) = true →
   predictionResult (ui (st w)) = JNull ∧ error (ui (st w)) = None) ∧
  (∀ t, t ∈ tasks w → is_predict_call (p_call t) = true →
   isLoading (ui (st w)) = true ∧
   predictionResult (ui (st w)) = JNull ∧ error (ui (st w)) = None) ∧
  length (in_flight w) = (if isLoading (ui (st w)) then 1 else 0).
Proof.
  intros Hw. destruct (reachable_inv w Hw) as [[Hb Hq _ _] Hc _].
  split; [done|]. split; [|done].
  intros t Ht Hpc.
  assert (t ∈ in_flight w) as Hin by (by apply list_elem_of_filter).
  destruct (isLoading (ui (st w))) eqn:Hl.
  - destruct (Hq eq_refl). done.
  - apply nil_length_inv in Hc. rewrite Hc in Hin. by apply elem_of_nil in Hin.
Qed.

Lemma loading_excludes_result_and_error_witness :
  let w := run [ChooseFiles [sample_file];
                Settles 0 (backend (mkResponse 200 "OK") (Resolved eczema));
                ClickPredict] in
  (isLoading (ui (st w)) = true →
   predictionResult (ui (st w)) = JNull ∧ error (ui (st w)) = None) ∧
  (∀ t, t ∈ tasks w → is_predict_call (p_call t) = true →
   isLoading (ui (st w)) = true ∧
   predictionResult (ui (st w)) = JNull ∧ error (ui (st w)) = None) ∧
  length (in_flight w) = 1.
Proof.
  exact (loading_excludes_result_and_error _
           (reachable_run [ChooseFiles [sample_file];
                           Settles 0 (backend (mkResponse 200 "OK") (Resolved eczema));
                           ClickPredict])).
Defined.

(** ** The camera session *)

(** C1, on the failing input.  The user opens the camera and is granted a
    stream with one track; the track is live.  Whether the session then ends
    by "Close Camera" or by "Capture Photo", the camera view is unmounted
    and the track is still live: the cleanup ran with the [stream] of the
    first render, which is [null]. *)
Theorem camera_close_leaves_track_live :
  let opened := run [ClickUseCamera; Settles 0 granted] in
  let cancelled := fire ClickCloseCamera opened in
  let captured := fire (ClickCapture "data:image/jpeg;base64,/9j/4AAQSkZJRg==") opened in
  (stream <$> camera (st opened) = Some (Some (mkStream [7])) ∧
   cleanup_stream <$> camera (st opened) = Some None ∧
   tracks (st opened) !! 7 = Some live) ∧
  (camera (st cancelled) = None ∧
   isCameraOpen (ui (st cancelled)) = false ∧
   tracks (st cancelled) !! 7 = Some live) ∧
  (camera (st captured) = None ∧
   isCameraOpen (ui (st captured)) = false ∧
   onCapture_calls (st captured) = ["data:image/jpeg;base64,/9j/4AAQSkZJRg=="] ∧
   tracks (st captured) !! 7 = Some live).
Proof. vm_compute. repeat split. Qed.

(** * Further properties *)

(** ** [handlePredict]: what a run leaves alone and what it asks for *)

(** X1.  Whatever the image and the environment, a run of [handlePredict]
    changes nothing but the result, the loading flag, the error and the
    console: the image, the camera flag, the file input, the camera view,
    the tracks, the alerts and the capture log are as before; the console
    gains at most one entry, labelled "Prediction error:". *)
Theorem handlePredict_frame v env n s :
  let s' := final_store (exec (handlePredict v) env n s) in
  imageSrc (ui s') = imageSrc (ui s) ∧
  isCameraOpen (ui s') = isCameraOpen (ui s) ∧
  fileInputRef s' = fileInputRef s ∧
  camera s' = camera s ∧
  tracks s' = tracks s ∧
  alerts s' = alerts s ∧
  onCapture_calls s' = onCapture_calls s ∧
  (console s' = console s ∨
   ∃ e, console s' = console s ++ [("Prediction error:", e)]).
Proof.
  destruct v as [src|]; [|cbn; repeat split; by left].
  destruct (truthy (Some src)) eqn:Hsrc.
  - cbn zeta. rewrite handlePredict_exec by done. unfold final_store.
    destruct (request_outcome src env n) as [data|e]; cbn.
    + repeat split; by left.
    + repeat split. right. by exists e.
  - unfold handlePredict. rewrite Hsrc. cbn. repeat split; by left.
Qed.

(** X2.  The operations a run of [handlePredict] starts: the first is the
    fetch of the image's data URI, there are at most four, all of them are
    the request's own, and the body of a response is parsed only when its
    status is in 200-299: the body of an error response is never read. *)
Ltac members :=
  split; [done|]; split; [cbn; lia|]; split;
  [ intros c Hc; repeat (apply elem_of_cons in Hc as [->|Hc]); try done;
    by apply elem_of_nil in Hc
  | intros r Hr; repeat (apply elem_of_cons in Hr as [Hr|Hr]); try done;
    try (by apply elem_of_nil in Hr); revert Hr ].

Theorem handlePredict_protocol src env n s :
  truthy (Some src) = true →
  let calls := calls_of (exec (handlePredict (Some src)) env n s) in
  head calls = Some (fetch src None) ∧
  (length calls ≤ 4)%nat ∧
  (∀ c, c ∈ calls → is_predict_call c = true) ∧
  (∀ r, Response_json r ∈ calls → (200 ≤ status r ≤ 299)%N).
Proof.
  intros Hsrc calls. subst calls. rewrite handlePredict_exec by done.
  unfold calls_of, request_calls. cbn.
  destruct (env n (fetch src None)) as [response|]; [|by members].
  destruct (env (S n) (Response_blob response)) as [blob|]; [|by members].
  destruct (env (S (S n)) (upload blob)) as [apiResponse|]; [|by members].
  destruct (ok apiResponse) eqn:Hok; [|by members].
  members. intros [= <-]. by apply ok_range.
Qed.

Lemma handlePredict_protocol_witness :
  let calls := calls_of (exec (handlePredict (Some sample_image))
                           (always (backend (mkResponse 200 "OK") (Resolved eczema)))
                           0 sample_store) in
  head calls = Some (fetch sample_image None) ∧
  (length calls ≤ 4)%nat ∧
  (∀ c, c ∈ calls → is_predict_call c = true) ∧
  (∀ r, Response_json r ∈ calls → (200 ≤ status r ≤ 299)%N).
Proof.
  exact (handlePredict_protocol sample_image
           (always (backend (mkResponse 200 "OK") (Resolved eczema))) 0 sample_store
           eq_refl).
Defined.

(** X3.  When the service answers the upload with a status outside
    200-299, the console entry names the status and its text, the user is
    shown the one generic message, and the run stops after the upload: three
    operations, the body is not asked for. *)
Theorem handlePredict_status_is_logged_not_shown src env n s blob r :
  truthy (Some src) = true →
  conversion src env n = Resolved blob →
  env (S (S n)) (upload blob) = Resolved r →
  ok r = false →
  let run := exec (handlePredict (Some src)) env n s in
  console (final_store run) =
    console s ++
    [("Prediction error:",
      mkError "Error" ("Server returned " +:+ pretty (status r) +:+ ": " +:+ statusText r))] ∧
  error (ui (final_store run)) = Some predict_error_message ∧
  length (calls_of run) = 3 ∧
  last (calls_of run) = Some (upload blob).
Proof.
  intros Hsrc Hconv Hup Hok run. subst run.
  rewrite handlePredict_exec by done.
  unfold request_outcome, request_calls, final_store, calls_of.
  rewrite Hconv, Hup, Hok. unfold conversion in Hconv. cbn.
  destruct (env n (fetch src None)) as [response|]; [|done].
  rewrite Hconv, Hup, Hok. done.
Qed.

Lemma handlePredict_status_is_logged_not_shown_witness :
  let run := exec (handlePredict (Some sample_image))
                  (always (backend (mkResponse 404 "Not Found") (Resolved eczema)))
                  0 sample_store in
  console (final_store run) =
    [("Prediction error:", mkError "Error" "Server returned 404: Not Found")] ∧
  error (ui (final_store run)) = Some predict_error_message ∧
  length (calls_of run) = 3 ∧
  last (calls_of run) = Some (upload (mkBlob "image/png" "PNG")).
Proof.
  exact (handlePredict_status_is_logged_not_shown sample_image
           (always (backend (mkResponse 404 "Not Found") (Resolved eczema)))
           0 sample_store (mkBlob "image/png" "PNG") (mkResponse 404 "Not Found")
           eq_refl eq_refl eq_refl eq_refl).
Defined.

(** ** [handleImageChange]: the edges *)

(** X4.  [handleImageChange] with an empty selection does nothing.  With a
    selection it reads the first file only, whatever else was selected; and
    when that read fails the store is left as it was: no image, no error, no
    log entry. *)
Theorem handleImageChange_edges env n s :
  exec (handleImageChange []) env n s = (s, [], Returned ()) ∧
  (∀ file rest,
     exec (handleImageChange (file :: rest)) env n s =
     exec (handleImageChange [file]) env n s ∧
     calls_of (exec (handleImageChange (file :: rest)) env n s) = [readAsDataURL file]) ∧
  (∀ file rest e,
     env n (readAsDataURL file) = Rejected e →
     exec (handleImageChange (file :: rest)) env n s =
     (s, [readAsDataURL file], Returned ())).
Proof.
  split; [done|]. split.
  - intros file rest. split; [done|]. cbn.
    by destruct (env n (readAsDataURL file)).
  - intros file rest e Hread. cbn. by rewrite Hread.
Qed.

Lemma handleImageChange_edges_witness :
  exec (handleImageChange [sample_file; sample_file])
       (always (failing failed_to_fetch)) 0 sample_store =
  (sample_store, [readAsDataURL sample_file], Returned ()).
Proof.
  exact (proj2 (proj2 (handleImageChange_edges (always (failing failed_to_fetch))
                         0 sample_store))
           sample_file [sample_file] failed_to_fetch eq_refl).
Defined.

(** ** What the page shows after a request *)




(** X6.  A request that succeeds with a truthy body without an array under
    "precautions" is not treated as a failure: no error is set.  But the
    evaluation of the result panel throws, so the page cannot be drawn. *)
Theorem malformed_body_breaks_render src env n s data :
  truthy (Some src) = true →
  request_outcome src env n = Resolved data →
  truthy_json data = true →
  (∀ items, member data "precautions" ≠ Some (JArr items)) →
  let s' := final_store (exec (handlePredict (Some src)) env n s) in
  error (ui s') = None ∧
  predictionResult (ui s') = data ∧
  result_panel (render (ui s')) = Throws.
Proof.
  intros Hsrc Hout Hdata Hprec s'. subst s'.
  rewrite handlePredict_exec, Hout by done.
  unfold final_store, render, PredictionResult. cbn. rewrite Hdata. cbn.
  split; [done|]. split; [done|].
  destruct (member data "precautions") as [[| | | |items|]|] eqn:Hm; try done.
  by destruct (Hprec items).
Qed.

Lemma malformed_body_breaks_render_witness :
  let s' := final_store
              (exec (handlePredict (Some sample_image))
                    (always (backend (mkResponse 200 "OK")
                               (Resolved (JObj [("prediction", JStr "Eczema")]))))
                    0 sample_store) in
  error (ui s') = None ∧
  predictionResult (ui s') = JObj [("prediction", JStr "Eczema")] ∧
  result_panel (render (ui s')) = Throws.
Proof.
  refine (malformed_body_breaks_render sample_image
            (always (backend (mkResponse 200 "OK")
                       (Resolved (JObj [("prediction", JStr "Eczema")]))))
            0 sample_store (JObj [("prediction", JStr "Eczema")])
            eq_refl eq_refl eq_refl _).
  intros items. discriminate.
Defined.

(** X7.  After a failed request the page shows the error banner with the
    fixed message and no result panel; the image is still previewed and the
    button is enabled again under its idle label, so the user can retry. *)
Theorem failed_request_is_shown src env n s e :
  imageSrc (ui s) = Some src →
  truthy (Some src) = true →
  request_outcome src env n = Rejected e →
  let page := render (ui (final_store (exec (handlePredict (imageSrc (ui s))) env n s))) in
  error_banner page =
    Some "Error predicting disease. Please try again. Make sure the backend server is running." ∧
  result_panel page = Nothing ∧
  preview page = Some src ∧
  predict_disabled page = false ∧
  predict_label page = "Predict Condition".
Proof.
  intros Himg Hsrc Hout page. subst page.
  rewrite Himg, handlePredict_exec, Hout by done.
  unfold final_store, render. cbn. by rewrite Himg, Hsrc.
Qed.

Lemma failed_request_is_shown_witness :
  let page := render (ui (final_store
                (exec (handlePredict (imageSrc (ui sample_store)))
                      (always (failing failed_to_fetch)) 0 sample_store))) in
  error_banner page =
    Some "Error predicting disease. Please try again. Make sure the backend server is running." ∧
  result_panel page = Nothing ∧
  preview page = Some sample_image ∧
  predict_disabled page = false ∧
  predict_label page = "Predict Condition".
Proof.
  exact (failed_request_is_shown sample_image (always (failing failed_to_fetch)) 0
           sample_store failed_to_fetch eq_refl eq_refl eq_refl).
Defined.

(** X8.  On every page the user can reach, the error banner and the result
    panel are never shown together; and while the button reads
    "Analyzing Image..." it is disabled and neither of the two is shown. *)
Theorem page_never_shows_banner_and_panel w :
  reachable w →
  let page := render (ui (st w)) in
  (error_banner page = None ∨ result_panel page = Nothing) ∧
  (predict_label page = "Analyzing Image..." →
   predict_disabled page = true ∧
   error_banner page = None ∧
   result_panel page = Nothing).
Proof.
  intros Hw page. subst page.
  destruct (reachable_inv w Hw) as [[Hb Hq Hx _] _ _].
  unfold render. cbn. split.
  - destruct Hx as [Hr|He]; [right|left]; by rewrite ?Hr, ?He.
  - destruct (isLoading (ui (st w))); [|done]. intros _.
    destruct (Hq eq_refl) as [Hr He]. by rewrite Hr, He.
Qed.

Lemma page_never_shows_banner_and_panel_witness :
  let page := render (ui (st (run [ChooseFiles [sample_file];
                                   Settles 0 (backend (mkResponse 200 "OK") (Resolved eczema));
                                   ClickPredict]))) in
  (error_banner page = None ∨ result_panel page = Nothing) ∧
  (predict_label page = "Analyzing Image..." →
   predict_disabled page = true ∧
   error_banner page = None ∧
   result_panel page = Nothing).
Proof.
  exact (page_never_shows_banner_and_panel _
           (reachable_run [ChooseFiles [sample_file];
                           Settles 0 (backend (mkResponse 200 "OK") (Resolved eczema));
                           ClickPredict])).
Defined.

(** ** Invariants kept step by step *)

Section Stable.

Variable P : store → Prop.

Hypothesis P_settle : ∀ c o s, P s → P (settle c o s).
Hypothesis P_mount : ∀ s, P s → P (CameraView_mount s).1.
Hypothesis P_unmount : ∀ inst s, camera s = Some inst → P s → P (CameraView_unmount inst s).
Hypothesis P_handler : ∀ ev s, stable P (handler ev s).
Hypothesis P_openCamera : ∀ id, stable P (openCamera id onClose).

Lemma stable_run p : ∀ s,
  stable P p →
  (P s → P (run_sync p s).1) ∧
  match (run_sync p s).2 with
  | Blocked c k => ∀ o, stable P (k o)
  | _ => True
  end.
Proof.
  induction p as [| | f k IH | k IH | c k IH]; intros s Hp; cbn in *; try done.
  - destruct Hp as [Hf Hk]. destruct (IH (f s) Hk) as [IH1 IH2]. split; auto.
  - apply IH; auto.
Qed.

Lemma stable_launch p w :
  stable P p → Forall (stable_task P) (tasks w) →
  (P (st w) → P (st (launch p w))) ∧ Forall (stable_task P) (tasks (launch p w)).
Proof.
  intros Hp Ht. destruct (stable_run p (st w) Hp) as [Hs' Hk].
  unfold launch. destruct (run_sync p (st w)) as [s' [a|e|c k]]; cbn in *; try done.
  split; [done|]. apply Forall_app. split; [done|]. by apply Forall_singleton.
Qed.

Lemma stable_commit w :
  Forall (stable_task P) (tasks w) →
  (P (st w) → P (st (commit w))) ∧ Forall (stable_task P) (tasks (commit w)).
Proof.
  intros Ht. unfold commit.
  destruct (camera (st w)) as [inst|] eqn:Hcam;
    destruct (isCameraOpen (ui (st w))); try done.
  - split; [|done]. by apply P_unmount.
  - pose proof (P_mount (st w)) as Hm. unfold CameraView_mount in *.
    cbv beta iota zeta.
    destruct (stable_launch (openCamera (next_id (st w)) onClose)
                (mkSys (with_next_id (S (next_id (st w)))
                          (with_camera
                             (λ _, Some (mkCamera (next_id (st w)) None None None)) (st w)))
                       (tasks w) (started w))
                (P_openCamera _) Ht) as [H1 H2].
    split; [|done]. intros Hs. apply H1, Hm, Hs.
Qed.

Lemma stable_fire ev w :
  Forall (stable_task P) (tasks w) →
  (P (st w) → P (st (fire ev w))) ∧ Forall (stable_task P) (tasks (fire ev w)).
Proof.
  intros Ht.
  assert (∀ p w', stable P p → Forall (stable_task P) (tasks w') →
          (P (st w') → P (st (commit (launch p w')))) ∧
          Forall (stable_task P) (tasks (commit (launch p w')))) as Hstep.
  { intros p w' Hp Ht'.
    destruct (stable_launch p w' Hp Ht') as [H1 H2].
    destruct (stable_commit (launch p w') H2) as [H3 H4]. split; auto. }
  destruct ev as [fs| | | |toDataURL| |i env]; try (apply Hstep; [apply P_handler|done]).
  unfold fire. destruct (tasks w !! i) as [t|] eqn:Hi; [|done].
  destruct (Hstep (p_k t (env (p_call t)))
              (mkSys (settle (p_call t) (env (p_call t)) (st w))
                     (delete i (tasks w)) (started w))) as [H1 H2].
  - by apply (Forall_lookup_1 _ _ _ _ Ht Hi).
  - by apply Forall_delete.
  - split; [|done]. intros Hs. apply H1. by apply P_settle.
Qed.

Lemma reachable_stable_tasks w : reachable w → Forall (stable_task P) (tasks w).
Proof.
  induction 1 as [|w ev Hw IH]; [constructor|]. by apply stable_fire.
Qed.


(** Once [P] holds on a reachable page it holds after any further
    events. *)
Lemma stable_forever w evs :
  reachable w → P (st w) → P (st (foldl (λ w ev, fire ev w) w evs)).
Proof.
  revert w. induction evs as [|ev evs IH]; intros w Hw Hs; cbn; [done|].
  apply IH; [by constructor|].
  by apply stable_fire; [apply reachable_stable_tasks|].
Qed.

End Stable.

(** The programs of the page are stable for the two invariants. *)

Lemma stable_ui P (f : AppState → AppState) (k : js unit) :
  (∀ s, P s → P (with_ui f s)) → stable P k → stable P (Sync (with_ui f) k).
Proof. by split. Qed.

Lemma held_frame i s s' :
  tracks s' = tracks s → camera s' = camera s → held i s → held i s'.
Proof. intros Ht Hc [H1 H2]. split; by rewrite ?Ht, ?Hc. Qed.

Lemma held_on_instance i id f s :
  (∀ inst, cleanup_stream (f inst) = cleanup_stream inst) →
  held i s → held i (with_camera (on_instance id f) s).
Proof.
  intros Hf [H1 H2]. split; [done|]. intros inst. cbn. unfold on_instance.
  destruct (camera s) as [inst0|]; [|done].
  case_decide; intros [= <-]; rewrite ?Hf; by apply H2.
Qed.

Lemma held_settle i c o s : held i s → held i (settle c o s).
Proof.
  intros [H1 H2]. split; [|by rewrite settle_camera].
  destruct c; try done. destruct o as [ms|]; [|done].
  cbn. induction (getTracks ms) as [|j l IH]; cbn; [done|].
  destruct (decide (j = i)) as [->|Hne].
  - by rewrite lookup_insert_eq.
  - by rewrite lookup_insert_ne.
Qed.

Ltac framed :=
  repeat
    lazymatch goal with
    | |- True => exact I
    | |- ∀ s, held _ s → held _ _ =>
        let s := fresh "s" in
        let H := fresh "H" in
        intros s H;
        first [ by apply (held_frame _ s) | by apply held_on_instance ]
    | |- _ ∧ _ => split
    end.

Lemma held_handlers i : ∀ ev s, stable (held i) (handler ev s).
Proof.
  intros ev s. destruct ev as [fs| | | |toDataURL| |j env]; cbn [handler].
  - destruct fs as [|file rest]; cbn; [by framed|].
    split; [by framed|]. intros [result|e]; cbn; by framed.
  - cbn. by framed.
  - destruct (isLoading (ui s) || negb (truthy (imageSrc (ui s)))); [done|].
    destruct (imageSrc (ui s)) as [src|]; [|done]. unfold handlePredict.
    destruct (negb (truthy (Some src))); [done|]. cbn.
    framed.
    intros [response|e]; cbn; [|by framed].
    intros [blob|e]; cbn; [|by framed].
    intros [apiResponse|e]; cbn; [|by framed].
    destruct (ok apiResponse); cbn; [|by framed].
    intros [data|e]; cbn; by framed.
  - destruct (truthy (imageSrc (ui s))); [|done]. cbn.
    framed. intros s0. destruct (fileInputRef s0); cbn; by framed.
  - destruct (camera s); [|done]. cbn. by framed.
  - destruct (camera s); [|done]. cbn. by framed.
  - done.
Qed.

Lemma held_openCamera i : ∀ id, stable (held i) (openCamera id onClose).
Proof. intros id. cbn. intros [mediaStream|e]; cbn; by framed. Qed.

(** X9.  A track that is live on a reachable page is live after any further
    events: nothing the user or the environment does afterwards releases
    it. *)
Theorem live_track_stays_live w i evs :
  reachable w →
  tracks (st w) !! i = Some live →
  tracks (st (foldl (λ w ev, fire ev w) w evs)) !! i = Some live.
Proof.
  intros Hw Hi.
  apply (stable_forever (held i)); try done.
  - apply held_settle.
  - intros s [H1 H2]. split; [done|]. cbn. by intros inst [= <-].
  - intros inst s Hcam [H1 H2]. unfold CameraView_unmount.
    rewrite (H2 inst Hcam). by split.
  - apply held_handlers.
  - apply held_openCamera.
  - split; [done|]. apply (steady_unreleased _ _ (inv_steady w (reachable_inv w Hw))).
Qed.

Lemma live_track_stays_live_witness :
  tracks (st (foldl (λ w ev, fire ev w) (run [ClickUseCamera; Settles 0 granted])
                [ClickCloseCamera; ClickUseCamera; ClickCapture "data:,";
                 ClickClear])) !! 7 = Some live.
Proof.
  exact (live_track_stays_live _ 7
           [ClickCloseCamera; ClickUseCamera; ClickCapture "data:,"; ClickClear]
           (reachable_run [ClickUseCamera; Settles 0 granted]) eq_refl).
Defined.







(** ** The camera session, further *)

Lemma fire_settles_at s ts t rest cs env :
  fire (Settles (length ts) env) (mkSys s (ts ++ t :: rest) cs) =
  commit (launch (p_k t (env (p_call t)))
            (mkSys (settle (p_call t) (env (p_call t)) s) (ts ++ rest) cs)).
Proof.
  unfold fire. cbn [tasks st started].
  by rewrite (list_lookup_middle ts rest t), delete_middle.
Qed.

Lemma fire_settles_last s ts t cs env :
  fire (Settles (length ts) env) (mkSys s (ts ++ [t]) cs) =
  commit (launch (p_k t (env (p_call t)))
            (mkSys (settle (p_call t) (env (p_call t)) s) ts cs)).
Proof. by rewrite fire_settles_at, app_nil_r. Qed.

Lemma fire_settles_next s ts t t' cs env :
  fire (Settles (S (length ts)) env) (mkSys s ((ts ++ [t]) ++ [t']) cs) =
  commit (launch (p_k t' (env (p_call t')))
            (mkSys (settle (p_call t') (env (p_call t')) s) (ts ++ [t]) cs)).
Proof.
  replace (S (length ts)) with (length (ts ++ [t])) by (rewrite length_app; cbn; lia).
  apply fire_settles_last.
Qed.


Lemma granted_tracks_live (l : list nat) (t : gmap nat readyState) i :
  i ∈ l → foldr (λ j, <[j:=live]>) t l !! i = Some live.
Proof.
  induction l as [|j l IH]; intros Hi; [by apply elem_of_nil in Hi|]. cbn.
  destruct (decide (j = i)) as [->|Hne]; [by rewrite lookup_insert_eq|].
  rewrite lookup_insert_ne by done. apply IH.
  apply elem_of_cons in Hi as [->|Hi]; done.
Qed.

(** X11.  From any page whose camera view is closed: the user opens the
    camera, which asks once for an environment-facing video stream, and the
    stream is granted.  The view stays open, holds the stream both in its
    state and as the source of the video element, every track of the stream
    is live, and no alert is raised. *)
Theorem camera_granted_shows_stream w env ms :
  camera (st w) = None →
  isCameraOpen (ui (st w)) = false →
  env (getUserMedia (mkConstraints "environment")) = Resolved ms →
  let opened := fire ClickUseCamera w in
  let streaming := fire (Settles (length (tasks w)) env) opened in
  started opened = started w ++ [getUserMedia (mkConstraints "environment")] ∧
  (∃ inst, camera (st streaming) = Some inst ∧
           stream inst = Some ms ∧ srcObject inst = Some ms) ∧
  isCameraOpen (ui (st streaming)) = true ∧
  (∀ i, i ∈ getTracks ms → tracks (st streaming) !! i = Some live) ∧
  alerts (st streaming) = alerts (st w) ∧
  onCapture_calls (st streaming) = onCapture_calls (st w) ∧
  tasks streaming = tasks w.
Proof.
  destruct w as [[[r l src o err] fi cam nid tr al co oc] ts cs].
  cbn. intros -> -> Henv. cbn.
  rewrite list_lookup_middle by done. cbn.
  rewrite Henv. rewrite delete_middle, app_nil_r.
  unfold commit, launch. cbn. unfold with_camera, on_instance. cbn.
  rewrite !decide_True by done. cbn.
  repeat split; eauto. intros i Hi. by apply granted_tracks_live.
Qed.

Lemma camera_granted_shows_stream_witness :
  let opened := fire ClickUseCamera init in
  let streaming := fire (Settles 0 granted) opened in
  started opened = [getUserMedia (mkConstraints "environment")] ∧
  (∃ inst, camera (st streaming) = Some inst ∧
           stream inst = Some (mkStream [7]) ∧ srcObject inst = Some (mkStream [7])) ∧
  isCameraOpen (ui (st streaming)) = true ∧
  (∀ i, i ∈ [7] → tracks (st streaming) !! i = Some live) ∧
  alerts (st streaming) = [] ∧
  onCapture_calls (st streaming) = [] ∧
  tasks streaming = [].
Proof.
  exact (camera_granted_shows_stream init granted (mkStream [7])
           eq_refl eq_refl eq_refl).
Defined.

(** X12.  A stream granted after the user has already closed the camera
    view is still acquired: no view is mounted, nothing is pending, and
    every track of the stream is live. *)
Theorem stream_granted_after_close_is_kept w env ms :
  camera (st w) = None →
  isCameraOpen (ui (st w)) = false →
  env (getUserMedia (mkConstraints "environment")) = Resolved ms →
  let closed := fire ClickCloseCamera (fire ClickUseCamera w) in
  let late := fire (Settles (length (tasks w)) env) closed in
  camera (st closed) = None ∧
  camera (st late) = None ∧
  isCameraOpen (ui (st late)) = false ∧
  tasks late = tasks w ∧
  (∀ i, i ∈ getTracks ms → tracks (st late) !! i = Some live).
Proof.
  destruct w as [[[r l src o err] fi cam nid tr al co oc] ts cs].
  cbn. intros -> -> Henv. cbn.
  rewrite (list_lookup_middle ts []) by done. cbn.
  rewrite Henv. cbn. rewrite delete_middle, app_nil_r.
  repeat split. intros i Hi. by apply granted_tracks_live.
Qed.

Lemma stream_granted_after_close_is_kept_witness :
  let closed := fire ClickCloseCamera (fire ClickUseCamera init) in
  let late := fire (Settles 0 granted) closed in
  camera (st closed) = None ∧
  camera (st late) = None ∧
  isCameraOpen (ui (st late)) = false ∧
  tasks late = [] ∧
  (∀ i, i ∈ [7] → tracks (st late) !! i = Some live).
Proof.
  exact (stream_granted_after_close_is_kept init granted (mkStream [7])
           eq_refl eq_refl eq_refl).
Defined.

(** X13.  The user opens the camera, closes it before the permission is
    decided, and opens it again.  When the first request is then rejected,
    its [onClose] closes the second camera view: the alert is raised, the
    view that is open is unmounted, and the second request is still
    pending. *)
Theorem late_rejection_closes_the_new_view w env e :
  camera (st w) = None →
  isCameraOpen (ui (st w)) = false →
  env (getUserMedia (mkConstraints "environment")) = Rejected e →
  let reopened := fire ClickUseCamera (fire ClickCloseCamera (fire ClickUseCamera w)) in
  let after := fire (Settles (length (tasks w)) env) reopened in
  (∃ inst, camera (st reopened) = Some inst ∧ cam_id inst = S (next_id (st w))) ∧
  isCameraOpen (ui (st reopened)) = true ∧
  length (tasks reopened) = S (S (length (tasks w))) ∧
  camera (st after) = None ∧
  isCameraOpen (ui (st after)) = false ∧
  alerts (st after) = alerts (st w) ++ [camera_error_message] ∧
  length (tasks after) = S (length (tasks w)).
Proof.
  intros Hcam Hopen Henv reopened after.
  destruct w as [[[r l src o err] fi cam nid tr al co oc] ts cs].
  cbn in Hcam, Hopen. subst cam o.
  eassert (reopened =
           mkSys (mkStore (mkApp r l src true err) fi
                          (Some (mkCamera (S nid) None None None)) (S (S nid))
                          tr al co oc)
                 ((ts ++ [mkPending (getUserMedia (mkConstraints "environment")) _])
                  ++ [_]) _) as Hre
    by (subst reopened; cbn; reflexivity).
  eassert (after =
          mkSys (mkStore (mkApp r l src false err) fi None (S (S nid)) tr
                         (al ++ [camera_error_message])
                         (co ++ [("Error accessing camera: ", e)]) oc)
                (ts ++ [_]) _) as Haf.
  { subst after. rewrite Hre. cbn [tasks]. rewrite <- app_assoc. cbn [app].
    rewrite fire_settles_at. cbn [p_k p_call]. rewrite Henv. cbn. reflexivity. }
  rewrite Hre, Haf. cbn.
  repeat split; eauto; rewrite ?length_app; cbn; lia.
Qed.

Lemma late_rejection_closes_the_new_view_witness :
  let reopened := fire ClickUseCamera (fire ClickCloseCamera (fire ClickUseCamera init)) in
  let after := fire (Settles 0 (failing permission_denied)) reopened in
  (∃ inst, camera (st reopened) = Some inst ∧ cam_id inst = 1) ∧
  isCameraOpen (ui (st reopened)) = true ∧
  length (tasks reopened) = 2 ∧
  camera (st after) = None ∧
  isCameraOpen (ui (st after)) = false ∧
  alerts (st after) = [camera_error_message] ∧
  length (tasks after) = 1.
Proof.
  exact (late_rejection_closes_the_new_view init (failing permission_denied)
           permission_denied eq_refl eq_refl eq_refl).
Defined.

(** X14.  The capture button works while the permission is still
    undecided: [onCapture] is invoked with the data URI of the canvas, which
    becomes the image, and the view closes.  If the permission is then
    refused, the alert is raised all the same, after the view is gone. *)
Theorem capture_before_permission_then_denied w env e toDataURL :
  camera (st w) = None →
  isCameraOpen (ui (st w)) = false →
  env (getUserMedia (mkConstraints "environment")) = Rejected e →
  let captured := fire (ClickCapture toDataURL) (fire ClickUseCamera w) in
  let after := fire (Settles (length (tasks w)) env) captured in
  onCapture_calls (st captured) = onCapture_calls (st w) ++ [toDataURL] ∧
  imageSrc (ui (st captured)) = Some toDataURL ∧
  camera (st captured) = None ∧
  alerts (st captured) = alerts (st w) ∧
  alerts (st after) = alerts (st w) ++ [camera_error_message] ∧
  onCapture_calls (st after) = onCapture_calls (st w) ++ [toDataURL] ∧
  imageSrc (ui (st after)) = Some toDataURL ∧
  camera (st after) = None.
Proof.
  intros Hcam Hopen Henv captured after.
  destruct w as [[[r l src o err] fi cam nid tr al co oc] ts cs].
  cbn in Hcam, Hopen. subst cam o.
  eassert (captured =
           mkSys (mkStore (mkApp JNull l (Some toDataURL) false None) fi None (S nid)
                          tr al co (oc ++ [toDataURL]))
                 (ts ++ [mkPending (getUserMedia (mkConstraints "environment")) _]) _)
    as Hcap by (subst captured; cbn; reflexivity).
  assert (after =
          mkSys (mkStore (mkApp JNull l (Some toDataURL) false None) fi None (S nid) tr
                         (al ++ [camera_error_message])
                         (co ++ [("Error accessing camera: ", e)]) (oc ++ [toDataURL]))
                ts (cs ++ [getUserMedia (mkConstraints "environment")])) as Haf.
  { subst after. rewrite Hcap. cbn [tasks]. rewrite fire_settles_last.
    cbn [p_k p_call]. rewrite Henv. cbn. reflexivity. }
  rewrite Hcap, Haf. cbn. done.
Qed.

Lemma capture_before_permission_then_denied_witness :
  let captured := fire (ClickCapture "data:,") (fire ClickUseCamera init) in
  let after := fire (Settles 0 (failing permission_denied)) captured in
  onCapture_calls (st captured) = ["data:,"] ∧
  imageSrc (ui (st captured)) = Some "data:," ∧
  camera (st captured) = None ∧
  alerts (st captured) = [] ∧
  alerts (st after) = [camera_error_message] ∧
  onCapture_calls (st after) = ["data:,"] ∧
  imageSrc (ui (st after)) = Some "data:," ∧
  camera (st after) = None.
Proof.
  exact (capture_before_permission_then_denied init (failing permission_denied)
           permission_denied "data:," eq_refl eq_refl eq_refl).
Defined.

(** ** A request and what happens meanwhile *)

Lemma exec_always {A} (p : js A) env : ∀ n m s,
  exec p (always env) n s = exec p (always env) m s.
Proof.
  induction p as [| | f k IH | k IH | c k IH]; intros n m s; cbn; try done.
  change (always env n c) with (env c). change (always env m c) with (env c).
  by rewrite (IH _ (S n) (S m)).
Qed.

Lemma commit_closed s ts cs :
  camera_closed s → commit (mkSys s ts cs) = mkSys s ts cs.
Proof. intros [Hc Ho]. unfold commit. cbn. by rewrite Hc, Ho. Qed.

(** A program whose steps keep the camera view closed, once launched and
    left alone while its operations settle, leaves the page in the store of
    its run in isolation, with nothing of its own pending. *)
Lemma undisturbed p env : ∀ s ts cs,
  stable camera_closed p → camera_closed s →
  foldl (λ w ev, fire ev w) (commit (launch p (mkSys s ts cs)))
        (replicate (length (calls_of (exec p (always env) 0 s))) (Settles (length ts) env))
  = mkSys (final_store (exec p (always env) 0 s)) ts
          (cs ++ calls_of (exec p (always env) 0 s)).
Proof.
  induction p as [| | f k IH | k IH | c k IH]; intros s ts cs Hp Hs.
  - cbn. rewrite app_nil_r. by apply commit_closed.
  - cbn. rewrite app_nil_r. by apply commit_closed.
  - destruct Hp as [Hf Hk]. apply (IH (f s) ts cs Hk (Hf s Hs)).
  - apply (IH s s ts cs (Hp s) Hs).
  - cbn [exec]. change (always env 0 c) with (env c).
    rewrite (exec_always _ env 1 0).
    destruct (exec (k (env c)) (always env) 0 (settle c (env c) s))
      as [[s' tr] r] eqn:Hex.
    unfold calls_of, final_store. cbn [fst snd length replicate foldl].
    unfold launch. cbn [run_sync st tasks started].
    rewrite commit_closed by done.
    rewrite fire_settles_last. cbn [p_k p_call].
    assert (camera_closed (settle c (env c) s)) as Hs'.
    { destruct Hs. split; by rewrite ?settle_ui, ?settle_camera. }
    pose proof (IH (env c) (settle c (env c) s) ts (cs ++ [c]) (Hp _) Hs') as IH'.
    rewrite Hex in IH'. unfold calls_of, final_store in IH'. cbn [fst snd] in IH'.
    rewrite IH'. by rewrite <- app_assoc.
Qed.

Lemma camera_closed_frame s s' :
  camera s' = camera s → isCameraOpen (ui s') = isCameraOpen (ui s) →
  camera_closed s → camera_closed s'.
Proof. intros Hc Ho [H1 H2]. split; by rewrite ?Hc, ?Ho. Qed.

Ltac undisturbing :=
  repeat
    lazymatch goal with
    | |- True => exact I
    | |- ∀ s, camera_closed s → camera_closed _ =>
        let s := fresh "s" in
        let H := fresh "H" in
        intros s H; by apply (camera_closed_frame s)
    | |- _ ∧ _ => split
    end.

Lemma handlePredict_keeps_camera v : stable camera_closed (handlePredict v).
Proof.
  destruct v as [src|]; [|done]. unfold handlePredict.
  destruct (negb (truthy (Some src))); [done|]. cbn.
  undisturbing.
  intros [response|e]; cbn; [|by undisturbing].
  intros [blob|e]; cbn; [|by undisturbing].
  intros [apiResponse|e]; cbn; [|by undisturbing].
  destruct (ok apiResponse); cbn; [|by undisturbing].
  intros [data|e]; cbn; by undisturbing.
Qed.

(** What is pending after the first segment of [handlePredict] keeps the
    camera view closed, whatever it is resumed with. *)
Lemma handlePredict_pending_keeps_camera src s c k :
  run_sync (handlePredict (Some src)) s = (c, k) →
  match k with
  | Blocked _ k' => ∀ o, stable camera_closed (k' o)
  | _ => True
  end.
Proof.
  intros Hrun.
  pose proof (stable_run camera_closed (handlePredict (Some src)) s
                (handlePredict_keeps_camera _)) as [_ Hk].
  by rewrite Hrun in Hk.
Qed.

(** X15.  A request in flight is neither cancelled nor re-targeted by what
    the user does meanwhile.  If a new file is chosen and read while a
    request for the image [src] is in flight, or the image is cleared, the
    request still completes: only [src] was fetched and uploaded, and its
    result is stored beside the new image, or beside no image at all.
    Nothing else on the page differs. *)
Theorem request_outlives_its_image w src file blob r data dataURL :
  camera (st w) = None →
  isCameraOpen (ui (st w)) = false →
  isLoading (ui (st w)) = false →
  imageSrc (ui (st w)) = Some src →
  truthy (Some src) = true →
  ok r = true →
  let env := service blob r data dataURL in
  let n := length (tasks w) in
  foldl (λ w ev, fire ev w) w
    [ClickPredict; ChooseFiles [file]; Settles (S n) env;
     Settles n env; Settles n env; Settles n env; Settles n env]
  = mkSys
      (mkStore (mkApp data false (Some dataURL) false None)
               (choose [file] (fileInputRef (st w))) None (next_id (st w))
               (tracks (st w)) (alerts (st w)) (console (st w)) (onCapture_calls (st w)))
      (tasks w)
      (started w ++ [fetch src None; readAsDataURL file;
                     Response_blob (mkResponse 200 "OK"); upload blob; Response_json r])
  ∧
  foldl (λ w ev, fire ev w) w
    [ClickPredict; ClickClear; Settles n env; Settles n env; Settles n env; Settles n env]
  = mkSys
      (mkStore (mkApp data false None false None)
               ((λ _, mkInput "" []) <$> fileInputRef (st w)) None (next_id (st w))
               (tracks (st w)) (alerts (st w)) (console (st w)) (onCapture_calls (st w)))
      (tasks w)
      (started w ++ [fetch src None; Response_blob (mkResponse 200 "OK");
                     upload blob; Response_json r]).
Proof.
  intros Hcam Hopen Hload Himg Hsrc Hok env n.
  destruct w as [[[res l img o err] fi cam nid tr al co oc] ts cs].
  cbn in Hcam, Hopen, Hload, Himg. subst cam o l img n.
  cbn [tasks st started fileInputRef next_id tracks alerts console onCapture_calls].
  set (s0 := mkStore (mkApp res false (Some src) false err) fi None nid tr al co oc).
  destruct (run_sync (handlePredict (Some src)) s0) as [s1 k1] eqn:Hrun.
  pose proof (handlePredict_pending_keeps_camera _ _ _ _ Hrun) as Hk.
  assert (fire ClickPredict (mkSys s0 ts cs) =
          commit (launch (handlePredict (Some src)) (mkSys s0 ts cs))) as Hfire.
  { unfold fire, handler. cbn [st s0 ui isLoading imageSrc]. by rewrite Hsrc. }
  unfold handlePredict in Hrun. rewrite Hsrc in Hrun. cbn in Hrun.
  injection Hrun as <- <-.
  eassert (fire ClickPredict (mkSys s0 ts cs) =
          mkSys (with_ui (λ a, mkApp JNull true (imageSrc a) (isCameraOpen a) None) s0)
                (ts ++ [mkPending (fetch src None) _]) (cs ++ [fetch src None])) as Hreq.
  { rewrite Hfire. unfold launch, handlePredict. rewrite Hsrc. cbn. reflexivity. }
  split.
  - change [ClickPredict; ChooseFiles [file]; Settles (S (length ts)) env;
            Settles (length ts) env; Settles (length ts) env; Settles (length ts) env;
            Settles (length ts) env]
      with ([ClickPredict; ChooseFiles [file]; Settles (S (length ts)) env;
             Settles (length ts) env] ++ replicate 3 (Settles (length ts) env)).
    rewrite foldl_app. cbn [foldl]. rewrite Hreq.
    eassert (fire (ChooseFiles [file]) _ =
             mkSys _ ((ts ++ [_]) ++ [mkPending (readAsDataURL file) _]) _) as ->
      by (cbn; reflexivity).
    rewrite fire_settles_next. cbn -[fire replicate].
    rewrite fire_settles_last. cbn [p_k p_call].
    match goal with
    | |- foldl _ (commit (launch ?p (mkSys ?s _ ?c))) _ = _ =>
        pose proof (undisturbed p env s ts c (Hk (Resolved (mkResponse 200 "OK")))) as Hu;
        eassert (exec p (always env) 0 s = (_, [_; _; _], _)) as Hex
          by (cbn; fold (upload blob); rewrite Hok; cbn; reflexivity)
    end.
    rewrite Hex in Hu. unfold calls_of, final_store in Hu. cbn [fst snd length] in Hu.
    rewrite Hu by (by split). cbn. by rewrite <- !app_assoc.
  - change [ClickPredict; ClickClear; Settles (length ts) env; Settles (length ts) env;
            Settles (length ts) env; Settles (length ts) env]
      with ([ClickPredict; ClickClear; Settles (length ts) env]
            ++ replicate 3 (Settles (length ts) env)).
    rewrite foldl_app. cbn [foldl]. rewrite Hreq.
    eassert (fire ClickClear
              (mkSys (with_ui (λ a, mkApp JNull true (imageSrc a) (isCameraOpen a) None) s0)
                 (ts ++ [mkPending (fetch src None) _]) (cs ++ [fetch src None])) =
            mkSys (mkStore (mkApp JNull true None false None)
                           ((λ _, mkInput "" []) <$> fi) None nid tr al co oc)
                  (ts ++ [mkPending (fetch src None) _]) (cs ++ [fetch src None])) as ->.
    { unfold fire, handler. cbn [st s0 ui with_ui imageSrc]. rewrite Hsrc.
      destruct fi; cbn; reflexivity. }
    rewrite fire_settles_last. cbn [p_k p_call].
    match goal with
    | |- foldl _ (commit (launch ?p (mkSys ?s _ ?c))) _ = _ =>
        pose proof (undisturbed p env s ts c (Hk (Resolved (mkResponse 200 "OK")))) as Hu;
        eassert (exec p (always env) 0 s = (_, [_; _; _], _)) as Hex
          by (cbn; fold (upload blob); rewrite Hok; cbn; reflexivity)
    end.
    rewrite Hex in Hu. unfold calls_of, final_store in Hu. cbn [fst snd length] in Hu.
    rewrite Hu by (by split). cbn. by rewrite <- !app_assoc.
Qed.

Lemma request_outlives_its_image_witness :
  let env := service (mkBlob "image/png" "PNG") (mkResponse 200 "OK") eczema
                     "data:image/png;base64,AAAA" in
  foldl (λ w ev, fire ev w) (mkSys sample_store [] [])
    [ClickPredict; ChooseFiles [sample_file]; Settles 1 env;
     Settles 0 env; Settles 0 env; Settles 0 env; Settles 0 env]
  = mkSys
      (mkStore (mkApp eczema false (Some "data:image/png;base64,AAAA") false None)
               (Some (mkInput "C:\fakepath\rash.png" [sample_file])) None 0 ∅ [] [] [])
      []
      [fetch sample_image None; readAsDataURL sample_file;
       Response_blob (mkResponse 200 "OK"); upload (mkBlob "image/png" "PNG");
       Response_json (mkResponse 200 "OK")]
  ∧
  foldl (λ w ev, fire ev w) (mkSys sample_store [] [])
    [ClickPredict; ClickClear; Settles 0 env; Settles 0 env; Settles 0 env; Settles 0 env]
  = mkSys
      (mkStore (mkApp eczema false None false None)
               (Some (mkInput "" [])) None 0 ∅ [] [] [])
      []
      [fetch sample_image None; Response_blob (mkResponse 200 "OK");
       upload (mkBlob "image/png" "PNG"); Response_json (mkResponse 200 "OK")].
Proof.
  exact (request_outlives_its_image (mkSys sample_store [] []) sample_image sample_file
           (mkBlob "image/png" "PNG") (mkResponse 200 "OK") eczema
           "data:image/png;base64,AAAA"
           eq_refl eq_refl eq_refl eq_refl eq_refl eq_refl).
Defined.

(** X16.  A request on the page that nothing disturbs runs as it does in
    isolation: from a page with the camera closed, an image present and no
    request in flight, clicking the button and letting the request's
    operations settle one after the other leaves the store of the isolated
    run, the pending operations as they were, and the started operations
    grown by those of the run. *)
Theorem undisturbed_request_runs_as_in_isolation w env :
  camera (st w) = None →
  isCameraOpen (ui (st w)) = false →
  isLoading (ui (st w)) = false →
  truthy (imageSrc (ui (st w))) = true →
  let r := exec (handlePredict (imageSrc (ui (st w)))) (always env) 0 (st w) in
  foldl (λ w ev, fire ev w) w
    (ClickPredict :: replicate (length (calls_of r)) (Settles (length (tasks w)) env))
  = mkSys (final_store r) (tasks w) (started w ++ calls_of r).
Proof.
  intros Hcam Hopen Hload Himg r. subst r.
  destruct w as [s ts cs]. cbn [st tasks started] in *. cbn [foldl].
  assert (fire ClickPredict (mkSys s ts cs) =
          commit (launch (handlePredict (imageSrc (ui s))) (mkSys s ts cs))) as ->.
  { unfold fire, handler. cbn [st]. by rewrite Hload, Himg. }
  apply undisturbed; [apply handlePredict_keeps_camera | by split].
Qed.

Lemma undisturbed_request_runs_as_in_isolation_witness :
  let env := backend (mkResponse 200 "OK") (Resolved eczema) in
  foldl (λ w ev, fire ev w) (mkSys sample_store [] [])
    [ClickPredict; Settles 0 env; Settles 0 env; Settles 0 env; Settles 0 env]
  = mkSys (mkStore (mkApp eczema false (Some sample_image) false None)
                   (Some (mkInput "" [])) None 0 ∅ [] [] [])
          []
          [fetch sample_image None; Response_blob (mkResponse 200 "OK");
           upload (mkBlob "image/png" "PNG"); Response_json (mkResponse 200 "OK")].
Proof.
  exact (undisturbed_request_runs_as_in_isolation (mkSys sample_store [] [])
           (backend (mkResponse 200 "OK") (Resolved eczema))
           eq_refl eq_refl eq_refl eq_refl).
Defined.

(** X17.  Choosing files, letting the first one load and then clearing
    brings the page back: no image, no result, no error, and the file input
    empty again, so that the same file can be chosen once more; whatever was
    pending before is still pending. *)
Theorem choose_load_clear_round_trip w (env : ∀ c : call, outcome (reply c)) file rest dataURL el :
  camera (st w) = None →
  isCameraOpen (ui (st w)) = false →
  fileInputRef (st w) = Some el →
  env (readAsDataURL file) = Resolved dataURL →
  truthy (Some dataURL) = true →
  let chosen := fire (ChooseFiles (file :: rest)) w in
  let loaded := fire (Settles (length (tasks w)) env) chosen in
  let cleared := fire ClickClear loaded in
  fileInputRef (st chosen) =
    Some (mkInput ("C:\fakepath\" +:+ file_name file) (file :: rest)) ∧
  imageSrc (ui (st loaded)) = Some dataURL ∧
  imageSrc (ui (st cleared)) = None ∧
  predictionResult (ui (st cleared)) = JNull ∧
  error (ui (st cleared)) = None ∧
  fileInputRef (st cleared) = Some (mkInput "" []) ∧
  isLoading (ui (st cleared)) = isLoading (ui (st w)) ∧
  tasks cleared = tasks w.
Proof.
  intros Hcam Hopen Hfi Henv Hurl chosen loaded cleared.
  destruct w as [[[res l img o err] fi cam nid tr al co oc] ts cs].
  cbn in Hcam, Hopen, Hfi. subst cam o fi.
  eassert (chosen = mkSys _ (ts ++ [mkPending (readAsDataURL file) _]) _) as Hch
    by (subst chosen; cbn; reflexivity).
  assert (loaded =
          mkSys (mkStore (mkApp JNull l (Some dataURL) false None)
                   (Some (mkInput ("C:\fakepath\" +:+ file_name file) (file :: rest)))
                   None nid tr al co oc) ts (cs ++ [readAsDataURL file])) as Hld.
  { subst loaded. rewrite Hch. cbn [tasks]. rewrite fire_settles_last.
    cbn [p_k p_call]. rewrite Henv. cbn. reflexivity. }
  assert (cleared =
          mkSys (mkStore (mkApp JNull l None false None) (Some (mkInput "" []))
                   None nid tr al co oc) ts (cs ++ [readAsDataURL file])) as Hcl.
  { subst cleared. rewrite Hld. unfold fire, handler. cbn [st ui imageSrc].
    rewrite Hurl. cbn. reflexivity. }
  rewrite Hch, Hld, Hcl. cbn. done.
Qed.

Lemma choose_load_clear_round_trip_witness :
  let env := backend (mkResponse 200 "OK") (Resolved eczema) in
  let chosen := fire (ChooseFiles [sample_file]) init in
  let loaded := fire (Settles 0 env) chosen in
  let cleared := fire ClickClear loaded in
  fileInputRef (st chosen) = Some (mkInput "C:\fakepath\rash.png" [sample_file]) ∧
  imageSrc (ui (st loaded)) = Some sample_image ∧
  imageSrc (ui (st cleared)) = None ∧
  predictionResult (ui (st cleared)) = JNull ∧
  error (ui (st cleared)) = None ∧
  fileInputRef (st cleared) = Some (mkInput "" []) ∧
  isLoading (ui (st cleared)) = false ∧
  tasks cleared = [].
Proof.
  exact (choose_load_clear_round_trip init (backend (mkResponse 200 "OK") (Resolved eczema))
           sample_file [] sample_image (mkInput "" [])
           eq_refl eq_refl eq_refl eq_refl eq_refl).
Defined.

(** * The refusal of the camera, under any schedule *)

Section Tail.

Variable P : store → Prop.

Hypothesis P_settle : ∀ c o s, P s → P (settle c o s).
Hypothesis P_mount : ∀ s, P s → P (CameraView_mount s).1.
Hypothesis P_unmount : ∀ inst s, camera s = Some inst → P s → P (CameraView_unmount inst s).
Hypothesis P_tail : ∀ ev s, stable_tail P (handler ev s).
Hypothesis P_openCamera : ∀ id, stable P (openCamera id onClose).

Lemma tail_run p : ∀ s,
  stable_tail P p →
  match (run_sync p s).2 with
  | Blocked c k => ∀ o, stable P (k o)
  | _ => True
  end.
Proof.
  induction p as [| | f k IH | k IH | c k IH]; intros s Hp; cbn in *; try done.
  - by apply IH.
  - by apply IH.
Qed.

Lemma tail_launch p w :
  stable_tail P p → Forall (stable_task P) (tasks w) →
  Forall (stable_task P) (tasks (launch p w)).
Proof.
  intros Hp Ht. pose proof (tail_run p (st w) Hp) as Hk.
  unfold launch. destruct (run_sync p (st w)) as [s' [a|e|c k]]; cbn in *; try done.
  apply Forall_app. split; [done|]. by apply Forall_singleton.
Qed.

Lemma tail_fire ev w :
  Forall (stable_task P) (tasks w) → Forall (stable_task P) (tasks (fire ev w)).
Proof.
  intros Ht.
  assert (∀ w', Forall (stable_task P) (tasks w') →
          Forall (stable_task P) (tasks (commit w'))) as Hcommit.
  { intros w' Ht'. by apply (stable_commit P P_mount P_unmount P_openCamera). }
  destruct ev as [fs| | | |toDataURL| |i env];
    try (apply Hcommit, tail_launch; [apply P_tail|done]).
  unfold fire. destruct (tasks w !! i) as [t|] eqn:Hi; [|done].
  apply Hcommit, stable_launch; cbn.
  - by apply (Forall_lookup_1 _ _ _ _ Ht Hi).
  - by apply Forall_delete.
Qed.

Lemma reachable_tail_tasks w : reachable w → Forall (stable_task P) (tasks w).
Proof.
  induction 1 as [|w ev Hw IH]; [constructor|]. by apply tail_fire.
Qed.

(** An event whose handler is stable keeps [P], on a page whose pending
    operations are stable. *)
Lemma stable_event ev w :
  stable P (handler ev (st w)) → Forall (stable_task P) (tasks w) →
  P (st w) → P (st (fire ev w)).
Proof.
  intros Hev Ht Hs.
  assert (∀ p w', stable P p → Forall (stable_task P) (tasks w') → P (st w') →
          P (st (commit (launch p w')))) as Hstep.
  { intros p w' Hp Ht' Hs'.
    destruct (stable_launch P p w' Hp Ht') as [H1 H2].
    by apply (stable_commit P P_mount P_unmount P_openCamera), H1. }
  destruct ev as [fs| | | |toDataURL| |i env]; try (by apply Hstep).
  unfold fire. destruct (tasks w !! i) as [t|] eqn:Hi; [|done].
  apply Hstep; cbn.
  - by apply (Forall_lookup_1 _ _ _ _ Ht Hi).
  - by apply Forall_delete.
  - by apply P_settle.
Qed.

End Tail.

Lemma captured_frame l s s' :
  onCapture_calls s' = onCapture_calls s → captured l s → captured l s'.
Proof. unfold captured. congruence. Qed.

Ltac uncaptured :=
  repeat
    lazymatch goal with
    | |- True => exact I
    | |- ∀ s : store, _ =>
        let s := fresh "s" in
        let H := fresh "H" in
        intros s H; exact H
    | |- _ ∧ _ => split
    end.

Lemma captured_openCamera l : ∀ id, stable (captured l) (openCamera id onClose).
Proof. intros id. cbn. intros [mediaStream|e]; cbn; by uncaptured. Qed.

(** Every handler but that of the capture button leaves the log of the
    callback alone, at each of its steps. *)
Lemma captured_handlers l : ∀ ev s,
  is_capture ev = false → stable (captured l) (handler ev s).
Proof.
  intros ev s Hev. destruct ev as [fs| | | |toDataURL| |j env]; cbn [handler].
  - destruct fs as [|file rest]; cbn; [by uncaptured|].
    split; [by uncaptured|]. intros [result|e]; cbn; by uncaptured.
  - cbn. by uncaptured.
  - destruct (isLoading (ui s) || negb (truthy (imageSrc (ui s)))); [done|].
    destruct (imageSrc (ui s)) as [src|]; [|done]. unfold handlePredict.
    destruct (negb (truthy (Some src))); [done|]. cbn.
    uncaptured.
    intros [response|e]; cbn; [|by uncaptured].
    intros [blob|e]; cbn; [|by uncaptured].
    intros [apiResponse|e]; cbn; [|by uncaptured].
    destruct (ok apiResponse); cbn; [|by uncaptured].
    intros [data|e]; cbn; by uncaptured.
  - destruct (truthy (imageSrc (ui s))); [|done]. cbn.
    uncaptured. intros s0. destruct (fileInputRef s0); cbn; by uncaptured.
  - discriminate Hev.
  - destruct (camera s); [|done]. cbn. by uncaptured.
  - done.
Qed.

Lemma stable_is_tail P p : stable P p → stable_tail P p.
Proof.
  induction p as [| | f k IH | k IH | c k IH]; cbn; try done.
  - intros [_ Hk]. by apply IH.
  - intros Hk s. by apply IH.
Qed.

(** What any handler leaves pending never invokes the callback. *)
Lemma captured_tails l : ∀ ev s, stable_tail (captured l) (handler ev s).
Proof.
  intros ev s. destruct (is_capture ev) eqn:Hev.
  - destruct ev; try done. cbn. by destruct (camera s).
  - by apply stable_is_tail, captured_handlers.
Qed.

Lemma captured_unmount l inst s :
  captured l s → captured l (CameraView_unmount inst s).
Proof.
  apply captured_frame. unfold CameraView_unmount, effect_cleanup.
  by destruct (cleanup_stream inst).
Qed.

Lemma captured_settle l c o s : captured l s → captured l (settle c o s).
Proof. apply captured_frame. destruct c; try done. by destruct o. Qed.

Lemma captured_mount l s : captured l s → captured l (CameraView_mount s).1.
Proof. intros H. by apply (captured_frame l s). Qed.

(** The acquisition callback is invoked by a click on the capture button
    and by nothing else. *)
Lemma callback_only_by_capture evs : ∀ w,
  reachable w →
  Forall (λ ev, is_capture ev = false) evs →
  onCapture_calls (st (foldl (λ w ev, fire ev w) w evs)) = onCapture_calls (st w).
Proof.
  induction evs as [|ev evs IH]; intros w Hw Hevs; cbn; [done|].
  apply Forall_cons in Hevs as [Hev Hevs].
  rewrite IH; [|by constructor|done].
  pose (l := onCapture_calls (st w)).
  pose proof (reachable_tail_tasks (captured l) (captured_mount l)
                (λ inst s _, captured_unmount l inst s) (captured_tails l)
                (captured_openCamera l) w Hw) as Ht.
  exact (stable_event (captured l) (captured_settle l) (captured_mount l)
           (λ inst s _, captured_unmount l inst s) (captured_openCamera l)
           ev w (captured_handlers l ev (st w) Hev) Ht eq_refl).
Qed.

(** The step in which a pending [openCamera] learns of the refusal. *)
Lemma refusal_step w i id s0 env e :
  tasks w !! i = pending_of (openCamera id onClose) s0 →
  env (getUserMedia (mkConstraints "environment")) = Rejected e →
  alerts (st (fire (Settles i env) w)) = alerts (st w) ++ [camera_error_message] ∧
  console (st (fire (Settles i env) w)) =
    console (st w) ++ [("Error accessing camera: ", e)] ∧
  onCapture_calls (st (fire (Settles i env) w)) = onCapture_calls (st w) ∧
  isCameraOpen (ui (st (fire (Settles i env) w))) = false ∧
  camera (st (fire (Settles i env) w)) = None.
Proof.
  intros Hi Henv. cbn in Hi. unfold fire. rewrite Hi. cbn [p_call p_k].
  rewrite Henv. unfold launch. cbn. unfold commit. cbn.
  destruct (camera (st w)) as [inst|] eqn:Hcam; cbn; [|by rewrite Hcam].
  unfold CameraView_unmount, effect_cleanup.
  by destruct (cleanup_stream inst).
Qed.

(** Opening the camera from a closed page leaves the [getUserMedia]
    request of the new view's [openCamera] pending, last in the queue. *)
Lemma opening_starts_openCamera w :
  camera (st w) = None →
  isCameraOpen (ui (st w)) = false →
  tasks (fire ClickUseCamera w) !! length (tasks w) =
    pending_of (openCamera (next_id (st w)) onClose) (st w).
Proof.
  destruct w as [[[r l src o err] fi cam nid tr al co oc] ts cs].
  cbn. intros -> ->. cbn.
  by rewrite (list_lookup_middle ts []).
Qed.

(** C9, as amended.  On any page reached from a reachable page by any
    events, when the [getUserMedia] request of a pending [openCamera] is
    rejected: exactly one alert is raised, with the fixed message; the
    rejection does not invoke the acquisition callback; and the camera view
    is closed and unmounted in that same step.  Over the whole run the
    callback is not invoked at all unless the user clicks the capture
    button, which is live while the request is pending. *)
Theorem camera_refusal_alerts_once_and_closes w evs i id s0 env e :
  reachable w →
  tasks (foldl (λ w ev, fire ev w) w evs) !! i = pending_of (openCamera id onClose) s0 →
  env (getUserMedia (mkConstraints "environment")) = Rejected e →
  let before := foldl (λ w ev, fire ev w) w evs in
  let after := fire (Settles i env) before in
  alerts (st after) =
    alerts (st before) ++
    ["Could not access the camera. Please ensure you have given permission."] ∧
  onCapture_calls (st after) = onCapture_calls (st before) ∧
  isCameraOpen (ui (st after)) = false ∧
  camera (st after) = None ∧
  (Forall (λ ev, is_capture ev = false) evs →
   onCapture_calls (st after) = onCapture_calls (st w)).
Proof.
  intros Hw Hi Henv before after. subst before after.
  destruct (refusal_step _ i id s0 env e Hi Henv) as (Ha & _ & Hc & Ho & Hv).
  repeat split; try done.
  intros Hevs. rewrite Hc. by apply callback_only_by_capture.
Qed.

Lemma camera_refusal_alerts_once_and_closes_witness :
  let before := foldl (λ w ev, fire ev w) init [ClickUseCamera; ChooseFiles [sample_file]] in
  let after := fire (Settles 0 (failing permission_denied)) before in
  alerts (st after) =
    ["Could not access the camera. Please ensure you have given permission."] ∧
  onCapture_calls (st after) = onCapture_calls (st before) ∧
  isCameraOpen (ui (st after)) = false ∧
  camera (st after) = None ∧
  onCapture_calls (st after) = [].
Proof.
  destruct (camera_refusal_alerts_once_and_closes init
              [ClickUseCamera; ChooseFiles [sample_file]] 0 0 init_store
              (failing permission_denied) permission_denied
              reach_init eq_refl eq_refl) as (Ha & Hc & Ho & Hv & Hnone).
  assert (Forall (λ ev, is_capture ev = false)
            [ClickUseCamera; ChooseFiles [sample_file]]) as Hevs
    by (repeat constructor).
  exact (conj Ha (conj Hc (conj Ho (conj Hv (Hnone Hevs))))).
Defined.

(** C9, counterexample.  The camera is refused, and yet the acquisition
    callback has been invoked: the user clicked the capture button while
    the request was pending. *)
Lemma camera_refused_yet_callback_invoked :
  let w := run [ClickUseCamera; ClickCapture "data:,";
                Settles 0 (failing permission_denied)] in
  alerts (st w) = ["Could not access the camera. Please ensure you have given permission."] ∧
  onCapture_calls (st w) ≠ [].
Proof. vm_compute. split; [reflexivity | discriminate]. Qed.
